(** * Oracle tracker: extraction, snapshot loading and state diffing

    A shallow embedding of [track_oracles_ts.py]: the tree walk that turns
    object literals into protocol records, the loop of [main] that merges the
    target files into one dataset, [load_snapshot], and [diff_states].

    Python values are modelled as follows.
    - [str] is a list of Unicode code points ([pystr]); comparison of two
      strings is the lexicographic order on code points, which is stdpp's
      [lexico] on [list N].
    - [dict] with string keys is a [gmap pystr _], [set] of strings a
      [gset pystr].
    - A syntax tree of the external parser is a [node]; the text a node
      spans is carried by the node itself. *)

From stdpp Require Import gmap sorting lexico list strings pretty.

#[local] Set Warnings "-clear-no-such-hyp".

(** ** Strings *)

Abbreviation pystr := (list N).

(** The Python string with the given ASCII characters. *)
Definition py (s : string) : pystr :=
  (λ c, Ascii.N_of_ascii c) <$> String.list_ascii_of_string s.

(** [bool(x)] for a string or a list: empty is false. *)
Definition truthy {A} (l : list A) : bool :=
  match l with [] => false | _ :: _ => true end.

(** [x or y] where [x] is a string or [None]. *)
Definition py_or (x y : option pystr) : option pystr :=
  match x with
  | Some (_ :: _) => x
  | _ => y
  end.

(** The code points [str.strip()] removes: those for which [str.isspace]
    holds. *)
Definition is_space (c : N) : bool :=
  ((9 <=? c) && (c <=? 13) || (28 <=? c) && (c <=? 32)
   || (c =? 133) || (c =? 160) || (c =? 5760)
   || (8192 <=? c) && (c <=? 8202)
   || (c =? 8232) || (c =? 8233) || (c =? 8239) || (c =? 8287)
   || (c =? 12288))%N.

Fixpoint lstrip (s : pystr) : pystr :=
  match s with
  | [] => []
  | c :: s' => if is_space c then lstrip s' else s
  end.

Definition rstrip (s : pystr) : pystr := reverse (lstrip (reverse s)).

Definition strip (s : pystr) : pystr := rstrip (lstrip s).

(** ** Sorting

    [sorted(xs, key=f)] and [xs.sort(key=f)] compare keys with [<] only and
    place [y] before [x] only when [f y < f x]. Every key used below
    determines its element, so the sorted list does not depend on the
    sorting algorithm ([sorted_key_unique]); the model sorts by merging. *)

Section py_sort.
Context {A K : Type}.
Context `{Lexico K, !StrictOrder (@lexico K _), !TrichotomyT (@lexico K _)}.

Definition key_le (key : A → K) : relation A :=
  λ x y, ¬ lexico (key y) (key x).

#[global] Instance key_le_dec (key : A → K) (x y : A) :
  Decision (key_le key x y).
Proof.
  refine (match trichotomyT lexico (key y) (key x) with
          | inleft (left Hlt) => right _
          | inleft (right Heq) => left _
          | inright Hgt => left _
          end); unfold key_le.
  - intros Hn. exact (Hn Hlt).
  - rewrite Heq. apply irreflexivity, _.
  - intros Hl. exact (irreflexivity lexico _ (transitivity Hl Hgt)).
Defined.

Definition sorted_key (key : A → K) (l : list A) : list A :=
  merge_sort (key_le key) l.
End py_sort.

(** [sorted(xs)] for a list of strings. *)
Definition sorted (l : list pystr) : list pystr := sorted_key (K:=pystr) id l.

(** [sorted(s)] for a set of strings; the iteration order of the set does
    not matter since the order is total on distinct strings. *)
Definition sorted_set (s : gset pystr) : list pystr := sorted (elements s).

(** ** Syntax trees

    What the tracker reads of a tree-sitter node: its type tag, whether it
    is a named node, the field name under which its parent holds it, the
    text it spans ([src[start_byte:end_byte]], decoded), and its children. *)

#[local] Unset Elimination Schemes.
Inductive node : Type :=
  Node {
    node_type : pystr;
    is_named : bool;
    field_name : option pystr;
    node_text : pystr;
    children : list node
  }.
#[local] Set Elimination Schemes.

Definition named_children (n : node) : list node := filter is_named (children n).

Definition child_by_field_name (n : node) (f : pystr) : option node :=
  head (filter (λ c, field_name c = Some f) (children n)).

Fixpoint tree_size (n : node) : nat :=
  S (sum_list (tree_size <$> children n)).

(** All the nodes of a tree, the root first. *)
Fixpoint subnodes (n : node) : list node :=
  n :: (children n ≫= subnodes).

(** ** Tree-sitter helpers *)

Definition get_text (n : node) : pystr := node_text n.

Definition unquote (s : pystr) : pystr :=
  if bool_decide (2 ≤ length s)
     && (bool_decide (head s = Some 34%N ∧ last s = Some 34%N)
         || bool_decide (head s = Some 39%N ∧ last s = Some 39%N))
  then drop 1 (take (length s - 1) s)
  else s.

Definition node_is_string (n : node) : bool :=
  bool_decide (node_type n = py "string").

Definition node_is_array (n : node) : bool :=
  bool_decide (node_type n = py "array").

Definition node_is_object (n : node) : bool :=
  bool_decide (node_type n = py "object").

Definition iter_object_pairs (obj_node : node) : list (node * node) :=
  omap (λ child,
          if bool_decide (node_type child = py "pair") then
            match child_by_field_name child (py "key"),
                  child_by_field_name child (py "value") with
            | Some key, Some val => Some (key, val)
            | _, _ => None
            end
          else None)
       (children obj_node).

Definition key_name (key_node : node) : option pystr :=
  if bool_decide (node_type key_node = py "property_identifier") then
    Some (get_text key_node)
  else if bool_decide (node_type key_node = py "string") then
    Some (unquote (get_text key_node))
  else None.

Definition array_string_values (arr_node : node) : list pystr :=
  (λ el, unquote (get_text el)) <$> filter node_is_string (named_children arr_node).

(** ** Records *)

(** A breakdown entry [{"name": _, "type": _}]. The diff reads an entry
    only through [x.get(k) or ""], so a missing field is the empty string. *)
Record bitem : Type := BItem { b_name : pystr; b_type : pystr }.

(** A protocol record. [name] and [file] may be missing ([None]) in a
    record read back from a snapshot; the lists are read by the diff
    through [.get(k, [])], so a missing list is the empty list. The record
    always has its [id], hence is never the empty dict. *)
Record protocol : Type :=
  Protocol {
    p_id : pystr;
    p_name : option pystr;
    p_file : option pystr;
    p_oracles : list pystr;
    p_oraclesBreakdown : list bitem
  }.

Record change : Type :=
  Change {
    c_id : pystr;
    c_name : option pystr;
    c_file : option pystr;
    c_plus : list pystr;
    c_minus : list pystr;
    c_types : list (pystr * pystr * pystr)
  }.

#[global] Instance bitem_eq_dec : EqDecision bitem.
Proof. solve_decision. Defined.
#[global] Instance protocol_eq_dec : EqDecision protocol.
Proof. solve_decision. Defined.
#[global] Instance change_eq_dec : EqDecision change.
Proof. solve_decision. Defined.

(** ** Extraction *)

(** One turn of the inner loop of [oracles_breakdown_items]: the state is
    [(name_val, type_val)]. *)
Definition breakdown_pair_step (st : pystr * pystr) (kv : node * node)
    : pystr * pystr :=
  let k := key_name kv.1 in
  if bool_decide (k = Some (py "name")) && node_is_string kv.2 then
    (unquote (get_text kv.2), st.2)
  else if bool_decide (k = Some (py "type")) && node_is_string kv.2 then
    (st.1, unquote (get_text kv.2))
  else st.

Definition oracles_breakdown_items (arr_node : node) : list bitem :=
  let items :=
    omap (λ el,
            if node_is_object el then
              let st := foldl breakdown_pair_step ([], []) (iter_object_pairs el) in
              if truthy st.1 || truthy st.2 then Some (BItem st.1 st.2) else None
            else None)
         (named_children arr_node) in
  sorted_key (K:=pystr * pystr) (λ x, (b_name x, b_type x)) items.

(** The locals of [object_to_protocol_min]. *)
Record protocol_locals : Type :=
  Locals {
    l_pid : option pystr;
    l_name_val : pystr;
    l_oracles : list pystr;
    l_breakdown : list bitem
  }.

Definition protocol_pair_step (st : protocol_locals) (kv : node * node)
    : protocol_locals :=
  match key_name kv.1 with
  | None => st
  | Some k =>
      if negb (truthy k) then st
      else if bool_decide (k = py "id") && node_is_string kv.2 then
        Locals (Some (unquote (get_text kv.2))) (l_name_val st) (l_oracles st)
               (l_breakdown st)
      else if bool_decide (k = py "name") && node_is_string kv.2 then
        Locals (l_pid st) (unquote (get_text kv.2)) (l_oracles st) (l_breakdown st)
      else if bool_decide (k = py "oracles") && node_is_array kv.2 then
        Locals (l_pid st) (l_name_val st)
               (sorted_set (list_to_set (array_string_values kv.2))) (l_breakdown st)
      else if bool_decide (k = py "oraclesBreakdown") && node_is_array kv.2 then
        Locals (l_pid st) (l_name_val st) (l_oracles st)
               (oracles_breakdown_items kv.2)
      else st
  end.

Definition object_to_protocol_min (obj_node : node) (file_name : pystr)
    : option protocol :=
  let st := foldl protocol_pair_step (Locals None [] [] []) (iter_object_pairs obj_node) in
  match l_pid st with
  | Some pid =>
      if truthy pid then
        Some (Protocol pid (Some (l_name_val st)) (Some file_name)
                       (l_oracles st) (l_breakdown st))
      else None
  | None => None
  end.

(** The body of the [while stack] loop of [parse_file_ts] for the node
    just popped, as far as [by_id] goes. *)
Definition visit (file_name : pystr) (n : node) (by_id : gmap pystr protocol)
    : gmap pystr protocol :=
  if node_is_object n then
    match object_to_protocol_min n file_name with
    | Some mini => if truthy (p_id mini) then <[p_id mini := mini]> by_id else by_id
    | None => by_id
    end
  else by_id.

(** The loop of [parse_file_ts]. The Python list used as a stack is kept
    with its top first: [stack.pop()] takes the head, and appending the
    children in order leaves the last child on top. Each turn of the loop
    consumes one unit of [fuel]; [None] means the fuel ran out. *)
Fixpoint walk (fuel : nat) (file_name : pystr) (stack : list node)
    (by_id : gmap pystr protocol) : option (gmap pystr protocol) :=
  match fuel with
  | 0 => None
  | S fuel' =>
      match stack with
      | [] => Some by_id
      | n :: rest =>
          walk fuel' file_name (reverse (children n) ++ rest) (visit file_name n by_id)
      end
  end.

(** [parse_file_ts], given the tree of the file and the file's name. One
    turn per node of the tree, and one more to find the stack empty. *)
Definition parse_file_ts (root : node) (file_name : pystr)
    : option (gmap pystr protocol) :=
  walk (S (tree_size root)) file_name [root] ∅.

(** ** Building the dataset ([main]) *)

Definition TARGET_FILES : list pystr :=
  [py "data.ts"; py "data1.ts"; py "data2.ts"; py "data3.ts"; py "data4.ts"].

(** One turn of the loop over the target files. [repo] gives the syntax
    tree of each file that exists in the data folder. *)
Definition scan_file (repo : pystr → option node)
    (dataset : option (gmap pystr protocol)) (fname : pystr)
    : option (gmap pystr protocol) :=
  ds ← dataset;
  match repo fname with
  | None => Some ds
  | Some root =>
      per_file ← parse_file_ts root fname;
      Some (per_file ∪ ds)
  end.

(** The loop of [main] over a list of file names, from an empty dataset. *)
Definition scan_files (repo : pystr → option node) (files : list pystr)
    : option (gmap pystr protocol) :=
  foldl (scan_file repo) (Some ∅) files.

(** The dataset [main] builds before it looks at the snapshot. *)
Definition main_dataset (repo : pystr → option node)
    : option (gmap pystr protocol) :=
  scan_files repo TARGET_FILES.

(** ** Diffing *)

Definition breakdown_name_to_type (lst : list bitem) : gmap pystr pystr :=
  foldl (λ d x,
           if truthy (strip (b_name x))
           then <[strip (b_name x) := strip (b_type x)]> d
           else d)
        ∅ lst.

(** The body of the loop of [diff_states] for an id with a record on both
    sides. The subscripts [a_bt[n]] and [b_bt[n]] are written as total
    lookups: [n] ranges over the keys of both maps, so they never fail
    ([record_types_keys]). *)
Definition diff_record (pid : pystr) (a b : protocol) : option change :=
  let a_or : gset pystr := list_to_set (p_oracles a) in
  let b_or : gset pystr := list_to_set (p_oracles b) in
  let or_added := b_or ∖ a_or in
  let or_removed := a_or ∖ b_or in
  let a_bt := breakdown_name_to_type (p_oraclesBreakdown a) in
  let b_bt := breakdown_name_to_type (p_oraclesBreakdown b) in
  let names_prev : gset pystr := dom a_bt in
  let names_next : gset pystr := dom b_bt in
  let type_changes :=
    (λ n, (n, a_bt !!! n, b_bt !!! n))
      <$> filter (λ n, a_bt !!! n ≠ b_bt !!! n)
                 (sorted_set (names_prev ∩ names_next)) in
  let added_names := sorted_set (names_next ∖ names_prev) in
  let removed_names := sorted_set (names_prev ∖ names_next) in
  let plus := sorted_set (list_to_set added_names ∪ or_added) in
  let minus := sorted_set (list_to_set removed_names ∪ or_removed) in
  if truthy plus || truthy minus || truthy type_changes then
    Some (Change pid (py_or (p_name b) (p_name a)) (p_file b) plus minus type_changes)
  else None.

(** A record is never the empty dict, so [not a or not b] holds exactly
    when one of the two lookups finds nothing. *)
Definition diff_states (prev nxt : gmap pystr protocol) : list change :=
  foldl (λ changes pid,
           match prev !! pid, nxt !! pid with
           | Some a, Some b =>
               match diff_record pid a b with
               | Some c => changes ++ [c]
               | None => changes
               end
           | _, _ => changes
           end)
        [] (sorted_set (dom prev ∪ dom nxt)).

(** ** Loading the snapshot *)

(** What a call can do: return a value or raise. *)
Inductive pyexn : Type := OSError | UnicodeDecodeError | JSONDecodeError.

Inductive result (A : Type) : Type :=
  | Returns (a : A)
  | Raises (e : pyexn).
Arguments Returns {A} a.
Arguments Raises {A} e.

Definition result_bind {A B} (r : result A) (k : A → result B) : result B :=
  match r with
  | Returns a => k a
  | Raises e => Raises e
  end.

(** A JSON document, and the Python value [json.loads] makes of it. A real
    number is kept by its lexeme. *)
#[local] Unset Elimination Schemes.
Inductive json : Type :=
  | JNull
  | JTrue
  | JFalse
  | JInt (z : Z)
  | JReal (lexeme : pystr)
  | JString (s : pystr)
  | JArray (items : list json)
  | JObject (members : list (pystr * json)).

Inductive pyvalue : Type :=
  | PyNone
  | PyBool (b : bool)
  | PyInt (z : Z)
  | PyFloat (lexeme : pystr)
  | PyStr (s : pystr)
  | PyList (l : list pyvalue)
  | PyDict (d : gmap pystr pyvalue).
#[local] Set Elimination Schemes.

(** The conversion table of the [json] module; of two members of an object
    with the same key the later one stays. *)
Fixpoint to_python (j : json) : pyvalue :=
  match j with
  | JNull => PyNone
  | JTrue => PyBool true
  | JFalse => PyBool false
  | JInt z => PyInt z
  | JReal x => PyFloat x
  | JString s => PyStr s
  | JArray l => PyList (to_python <$> l)
  | JObject m => PyDict (foldl (λ d kv, <[kv.1 := to_python kv.2]> d) ∅ m)
  end.

(** The text of a file, as the JSON decoder sees it: a JSON document or
    not one. *)
Inductive file_text : Type :=
  | Malformed
  | Document (j : json).

Definition json_loads (t : file_text) : result pyvalue :=
  match t with
  | Document j => Returns (to_python j)
  | Malformed => Raises JSONDecodeError
  end.

(** The state of the path [SNAPSHOT_FILE]: nothing there, something that
    cannot be read as text, or a text file. *)
Inductive path_state : Type :=
  | Missing
  | Unreadable (e : pyexn)
  | Holds (t : file_text).

Definition path_exists (p : path_state) : bool :=
  match p with Missing => false | _ => true end.

Definition read_text (p : path_state) : result file_text :=
  match p with
  | Missing => Raises OSError
  | Unreadable e => Raises e
  | Holds t => Returns t
  end.

Definition load_snapshot (snapshot_file : path_state) : result pyvalue :=
  if path_exists snapshot_file then
    result_bind (read_text snapshot_file) json_loads
  else Returns PyNone.

(** ** Notions used to state and prove the properties *)

(** The names a breakdown list gives to the diff: each entry's name with
    surrounding whitespace removed, when something is left. *)
Definition breakdown_names (lst : list bitem) : list pystr :=
  filter (λ n, n ≠ []) ((λ x, strip (b_name x)) <$> lst).

(** A string that is empty or made of whitespace only. *)
Definition blank (s : pystr) : bool := forallb is_space s.

(** [x] is an oracle of [b] and not of [a], or a breakdown name of [b] and
    not of [a]. *)
Definition newly_present (a b : protocol) (x : pystr) : Prop :=
  (x ∈ p_oracles b ∧ x ∉ p_oracles a)
  ∨ (x ∈ breakdown_names (p_oraclesBreakdown b)
     ∧ x ∉ breakdown_names (p_oraclesBreakdown a)).

(** The values [diff_states] computes for two records: [plus] (and, with
    the records exchanged, [minus]) and [type_changes]. *)
Definition record_plus (a b : protocol) : list pystr :=
  sorted_set
    (list_to_set
       (sorted_set (dom (breakdown_name_to_type (p_oraclesBreakdown b))
                    ∖ dom (breakdown_name_to_type (p_oraclesBreakdown a))))
     ∪ (list_to_set (p_oracles b) ∖ list_to_set (p_oracles a))).

Definition record_types (a b : protocol) : list (pystr * pystr * pystr) :=
  let a_bt := breakdown_name_to_type (p_oraclesBreakdown a) in
  let b_bt := breakdown_name_to_type (p_oraclesBreakdown b) in
  (λ n, (n, a_bt !!! n, b_bt !!! n))
    <$> filter (λ n, a_bt !!! n ≠ b_bt !!! n) (sorted_set (dom a_bt ∩ dom b_bt)).

(** A record without its breakdown entries of blank name, and a record
    with the names and types of its breakdown entries stripped. *)
Definition drop_blank_names (r : protocol) : protocol :=
  Protocol (p_id r) (p_name r) (p_file r) (p_oracles r)
           (filter (λ x, blank (b_name x) = false) (p_oraclesBreakdown r)).

Definition strip_breakdown (r : protocol) : protocol :=
  Protocol (p_id r) (p_name r) (p_file r) (p_oracles r)
           ((λ x, BItem (strip (b_name x)) (strip (b_type x)))
              <$> p_oraclesBreakdown r).

(** The breakdown list has an entry whose name is not blank and is [n]
    once the whitespace around it is removed. *)
Definition names_stripped (lst : list bitem) (n : pystr) : Prop :=
  ∃ x, x ∈ lst ∧ blank (b_name x) = false ∧ strip (b_name x) = n.

(** The type of the last entry of the list whose name is [n] once
    stripped, with the whitespace around the type removed. *)
Definition last_stripped_type (lst : list bitem) (n : pystr) : option pystr :=
  last ((λ x, strip (b_type x)) <$> filter (λ x, strip (b_name x) = n) lst).

(** A string with no whitespace in front. *)
Definition no_leading_space (s : pystr) : Prop :=
  match s with [] => True | c :: _ => is_space c = false end.

(** What the loop of [diff_states] adds for one id. *)
Definition diff_at (prev nxt : gmap pystr protocol) (pid : pystr)
    : option change :=
  a ← prev !! pid; b ← nxt !! pid; diff_record pid a b.

(** The value of the last pair among [pairs] whose key is [k] and whose
    value is of the given kind. *)
Definition last_value (k : pystr) (kind : node → bool)
    (pairs : list (node * node)) : option node :=
  last (omap (λ kv, if bool_decide (key_name kv.1 = Some k) && kind kv.2
                    then Some kv.2 else None) pairs).

(** The field [k] of an object literal, when it has one of that kind. *)
Definition last_field (k : pystr) (kind : node → bool) (obj : node)
    : option node :=
  last_value k kind (iter_object_pairs obj).

(** The object literal has a field [id] whose value is a string. *)
Definition has_string_id (obj : node) : bool :=
  bool_decide (is_Some (last_field (py "id") node_is_string obj)).

(** The string field [k] of an object literal, empty when it has none. *)
Definition string_field (k : pystr) (obj : node) : pystr :=
  match last_field k node_is_string obj with
  | Some v => unquote (get_text v)
  | None => []
  end.

(** The entries of a breakdown array, in the order of the source: one for
    each element that is an object literal, the ones with neither a name
    nor a type left out. *)
Definition breakdown_entries (arr : node) : list bitem :=
  filter (λ x, b_name x ≠ [] ∨ b_type x ≠ [])
         ((λ el, BItem (string_field (py "name") el) (string_field (py "type") el))
            <$> filter node_is_object (named_children arr)).

(** The records [main] gets from one target file: none if the file is
    missing. *)
Definition file_records (repo : pystr → option node) (fname : pystr)
    : gmap pystr protocol :=
  match repo fname with
  | Some root => default ∅ (parse_file_ts root fname)
  | None => ∅
  end.

(** ** Scenarios *)

(** Syntax trees as the parser gives them for simple sources. *)
Definition token (s : string) : node := Node (py s) false None (py s) [].

Definition string_lit (s : string) : node :=
  Node (py "string") true None (py "'" ++ py s ++ py "'")
       [token "'"; Node (py "string_fragment") true None (py s) []; token "'"].

Definition number_lit (s : string) : node :=
  Node (py "number") true None (py s) [].

Definition ident (s : string) : node :=
  Node (py "property_identifier") true None (py s) [].

Definition in_field (f : string) (n : node) : node :=
  Node (node_type n) (is_named n) (Some (py f)) (node_text n) (children n).

Definition pair_of (k : string) (v : node) : node :=
  Node (py "pair") true None (py k ++ py ": " ++ node_text v)
       [in_field "key" (ident k); token ":"; in_field "value" v].

Fixpoint comma_separated (l : list node) : list node :=
  match l with
  | [] => []
  | [n] => [n]
  | n :: l' => n :: token "," :: comma_separated l'
  end.

Definition enclosed (type open close : string) (l : list node) : node :=
  Node (py type) true None
       (py open ++ (comma_separated l ≫= node_text) ++ py close)
       (token open :: comma_separated l ++ [token close]).

Definition object_of (members : list node) : node := enclosed "object" "{" "}" members.

Definition array_of (elems : list node) : node := enclosed "array" "[" "]" elems.

(** The tree of a file whose only statement is the expression [e]. *)
Definition program_of (e : node) : node :=
  Node (py "program") true None (node_text e ++ py ";")
       [Node (py "expression_statement") true None (node_text e ++ py ";")
             [e; token ";"]].

(** [{name: 'Foo', oracles: ['Chainlink']}]: recognized fields, no [id]. *)
Definition literal_without_id : node :=
  object_of [pair_of "name" (string_lit "Foo");
             pair_of "oracles" (array_of [string_lit "Chainlink"])].

(** [{id: 12, name: 'Foo'}]: an [id] that is not a string. *)
Definition literal_with_number_id : node :=
  object_of [pair_of "id" (number_lit "12"); pair_of "name" (string_lit "Foo")].

(** [{id: '7', name: 'Bar', oracles: ['b', 'a', 'b'],
      oraclesBreakdown: [{name: 'Z', type: 'P'}, {type: 'A'}, {}, 'x']}]. *)
Definition literal_bar : node :=
  object_of [pair_of "id" (string_lit "7");
             pair_of "name" (string_lit "Bar");
             pair_of "oracles"
               (array_of [string_lit "b"; string_lit "a"; string_lit "b"]);
             pair_of "oraclesBreakdown"
               (array_of [object_of [pair_of "name" (string_lit "Z");
                                     pair_of "type" (string_lit "P")];
                          object_of [pair_of "type" (string_lit "A")];
                          object_of [];
                          string_lit "x"])].

(** The file
    [[{name: 'Foo', oracles: ['Chainlink']}, {id: 12, name: 'Foo'}, {id: '7', ...}];]. *)
Definition file_of_three : node :=
  program_of (array_of [literal_without_id; literal_with_number_id; literal_bar]).

(** The file [[{id: '7', name: 'Baz'}];]. *)
Definition file_of_baz : node :=
  program_of (array_of [object_of [pair_of "id" (string_lit "7");
                                   pair_of "name" (string_lit "Baz")]]).

(** A data folder with [data.ts] and [data2.ts] only; both have a record
    with id 7. *)
Definition two_files (fname : pystr) : option node :=
  if bool_decide (fname = py "data.ts") then Some file_of_three
  else if bool_decide (fname = py "data2.ts") then Some file_of_baz
  else None.

(** Scenario A: [{p1: oracles=[a,b]}] against [{p1: oracles=[b,c]}]. *)
Definition scenario_a_prev : gmap pystr protocol :=
  {[ py "p1" := Protocol (py "p1") None None [py "a"; py "b"] [] ]}.
Definition scenario_a_next : gmap pystr protocol :=
  {[ py "p1" := Protocol (py "p1") None None [py "b"; py "c"] [] ]}.

(** Scenario C: the type of the breakdown entry Chainlink changes. *)
Definition scenario_c_prev : gmap pystr protocol :=
  {[ py "p1" := Protocol (py "p1") None None []
                         [BItem (py "Chainlink") (py "primary")] ]}.
Definition scenario_c_next : gmap pystr protocol :=
  {[ py "p1" := Protocol (py "p1") None None []
                         [BItem (py "Chainlink") (py "secondary")] ]}.

(** Scenario D: a protocol that is new in the second dataset. *)
Definition scenario_d_prev : gmap pystr protocol :=
  {[ py "p1" := Protocol (py "p1") None None [py "a"] [] ]}.
Definition scenario_d_next : gmap pystr protocol :=
  {[ py "p1" := Protocol (py "p1") None None [py "a"] [];
     py "p2" := Protocol (py "p2") (Some (py "New")) (Some (py "data.ts"))
                         [py "Chainlink"] [] ]}.

(** An oracle that moves from the flat list to the breakdown. *)
Definition moved_prev : gmap pystr protocol :=
  {[ py "p1" := Protocol (py "p1") (Some (py "Aave")) (Some (py "data.ts"))
                         [py "Chainlink"] [] ]}.
Definition moved_next : gmap pystr protocol :=
  {[ py "p1" := Protocol (py "p1") (Some (py "Aave")) (Some (py "data.ts"))
                         [] [BItem (py "Chainlink") (py "Primary")] ]}.

(** Breakdown entries with whitespace around names and types, and with
    blank names: Chainlink changes its type, Pyth stays as it is, Redstone
    is new, and the entries without a name differ in their types. *)
Definition padded_prev : gmap pystr protocol :=
  {[ py "p1" := Protocol (py "p1") None None []
                         [BItem (py " Chainlink") (py "primary");
                          BItem (py "Pyth ") (py " a ");
                          BItem (py "  ") (py "x")] ]}.
Definition padded_next : gmap pystr protocol :=
  {[ py "p1" := Protocol (py "p1") None None []
                         [BItem (py "Chainlink ") (py " secondary ");
                          BItem (py " Pyth") (py "a");
                          BItem [] (py "y");
                          BItem (py " Redstone ") (py "r")] ]}.

(** ** Proof automation *)

(** Splits on the tests of the key; two different keys cannot both match. *)
Ltac key_cases :=
  cbv zeta; repeat case_bool_decide;
  try match goal with
      | H : ?x = Some (py ?a), H' : ?x = Some (py ?b) |- _ =>
          rewrite H in H'; by vm_compute in H'
      end;
  repeat (destruct (node_is_string _)); repeat (destruct (node_is_array _));
  try done.

(** ** Further notions: the walk seen from the tree *)

(** The record an object literal leaves in [by_id], if any. *)
Definition node_record (file_name : pystr) (n : node) : option protocol :=
  if node_is_object n then
    match object_to_protocol_min n file_name with
    | Some mini => if truthy (p_id mini) then Some mini else None
    | None => None
    end
  else None.

(** The order in which the loop of [parse_file_ts] pops the nodes of a
    tree: the node itself, then the subtrees of its children from the last
    child to the first. *)
Fixpoint visit_order (n : node) : list node :=
  n :: concat (reverse (visit_order <$> children n)).

(** The file [[{id: '7', name: 'A'}, {id: '7', name: 'B'}];]. *)
Definition file_of_twins : node :=
  program_of (array_of [object_of [pair_of "id" (string_lit "7");
                                   pair_of "name" (string_lit "A")];
                        object_of [pair_of "id" (string_lit "7");
                                   pair_of "name" (string_lit "B")]]).

(** [{id: '', name: 'Foo'}]: a string [id] that is empty. *)
Definition literal_with_empty_id : node :=
  object_of [pair_of "id" (string_lit ""); pair_of "name" (string_lit "Foo")].

(** ** The report ([print_human]) *)

(** [html.escape(s)]: [&], [<], [>] and both quotes become entities. The
    library replaces [&] first and the others after it, which is the same
    as replacing each character on its own. *)
Definition escape_char (c : N) : pystr :=
  if (c =? 38)%N then py "&amp;"
  else if (c =? 60)%N then py "&lt;"
  else if (c =? 62)%N then py "&gt;"
  else if (c =? 34)%N then py "&quot;"
  else if (c =? 39)%N then py "&#x27;"
  else [c].

Definition escape (s : pystr) : pystr := s ≫= escape_char.

(** [sep.join(lines)]. *)
Fixpoint join (sep : pystr) (lines : list pystr) : pystr :=
  match lines with
  | [] => []
  | [l] => l
  | l :: rest => l ++ sep ++ join sep rest
  end.

(** [x or d] for a string [x]. *)
Definition str_or (x d : pystr) : pystr := if truthy x then x else d.

(** The lines [print_human] appends for one change record. *)
Definition change_lines (c : change) : list pystr :=
  let name := escape (default [] (c_name c)) in
  let pid := escape (c_id c) in
  let file := escape (default [] (c_file c)) in
  [ [128736; 65039]%N ++ py " <b>Protocol " ++ name ++ py "</b> (id <code>" ++ pid
    ++ py "</code>) on <i>" ++ file ++ py "</i> has the following changes:" ]
  ++ ((λ n, py "  " ++ [10133%N] ++ py " <b>" ++ escape n ++ py "</b>") <$> c_plus c)
  ++ ((λ n, py "  " ++ [10134%N] ++ py " <b>" ++ escape n ++ py "</b>") <$> c_minus c)
  ++ ((λ t, let oname := escape t.1.1 in
            let old := escape (str_or t.1.2 (py "(none)")) in
            let new := escape (str_or t.2 (py "(none)")) in
            py "  " ++ [128260%N] ++ py " <b>" ++ oname ++ py "</b> (type: <code>"
            ++ old ++ py "</code> " ++ [8594%N] ++ py " <code>" ++ new
            ++ py "</code>)")
        <$> c_types c)
  ++ [ [] ].

(** The list [lines] of [print_human] for a change-set that is not empty. *)
Definition human_lines (changes : list change) : list pystr :=
  (changes ≫= change_lines)
  ++ [ [128204%N] ++ py " Total protocols with oracle changes: "
       ++ py (pretty (length changes)) ].

(** The text [print_human] prints. *)
Definition print_human (changes : list change) : pystr :=
  if truthy changes then join [10%N] (human_lines changes)
  else [10024%N] ++ py " No oracle changes today!".

(** The characters [<] and [>] of a line, in order. *)
Definition angle_brackets (line : pystr) : pystr :=
  filter (λ c, c = 60%N ∨ c = 62%N) line.

(** A character that is neither an angle bracket nor a quote. *)
Definition plain_char (c : N) : Prop :=
  c ≠ 60%N ∧ c ≠ 62%N ∧ c ≠ 34%N ∧ c ≠ 39%N.

(** ** Saving the snapshot *)

(** [json.dumps], as far as the document goes: the conversion table of
    [to_python] read the other way. The order of the members of an object
    (the insertion order of the dict) is not kept by the model; the layout
    options ([indent], [ensure_ascii]) only touch the text. *)
Fixpoint json_dumps (v : pyvalue) : json :=
  match v with
  | PyNone => JNull
  | PyBool true => JTrue
  | PyBool false => JFalse
  | PyInt z => JInt z
  | PyFloat x => JReal x
  | PyStr s => JString s
  | PyList l => JArray (json_dumps <$> l)
  | PyDict d => JObject (map_to_list (json_dumps <$> d))
  end.

Fixpoint pysize (v : pyvalue) : nat :=
  match v with
  | PyList l => S (sum_list (pysize <$> l))
  | PyDict d => S (map_fold (λ _ v n, pysize v + n) 0 d)
  | _ => 1
  end.

(** The Python values that breakdown entries, records and datasets are.
    A record made by [object_to_protocol_min] has all five keys; [name]
    and [file] are left out of the dict when the record has none. *)
Definition py_of_bitem (x : bitem) : pyvalue :=
  PyDict {[ py "name" := PyStr (b_name x); py "type" := PyStr (b_type x) ]}.

Definition with_key (k : pystr) (o : option pystr) (d : gmap pystr pyvalue)
    : gmap pystr pyvalue :=
  match o with
  | Some s => <[k := PyStr s]> d
  | None => d
  end.

Definition py_of_protocol (r : protocol) : pyvalue :=
  PyDict (with_key (py "name") (p_name r)
            (with_key (py "file") (p_file r)
               {[ py "id" := PyStr (p_id r);
                  py "oracles" := PyList (PyStr <$> p_oracles r);
                  py "oraclesBreakdown" :=
                    PyList (py_of_bitem <$> p_oraclesBreakdown r) ]})).

Definition py_of_dataset (state : gmap pystr protocol) : pyvalue :=
  PyDict (py_of_protocol <$> state).

(** [save_snapshot]: the path then holds the document of the dataset.
    Writing the file is taken to succeed. *)
Definition save_snapshot (state : gmap pystr protocol) : path_state :=
  Holds (Document (json_dumps (py_of_dataset state))).

(** ** Reading a loaded value as a dataset

    [diff_states] uses the value [load_snapshot] returns as it is. These
    functions say which values the typed [diff_states] above stands for:
    dicts of dicts whose fields, where present, are strings and lists as
    in a record. [None] means the value is not of that shape; what the
    Python code does with such a value is outside the model. *)
Definition as_str (v : pyvalue) : option pystr :=
  match v with PyStr s => Some s | _ => None end.

(** [d.get(k)] passed on as it is: a string, or [None] when the key is
    missing or holds [None]. *)
Definition get_opt_str (o : option pyvalue) : option (option pystr) :=
  match o with
  | None | Some PyNone => Some None
  | Some (PyStr s) => Some (Some s)
  | _ => None
  end.

(** [d.get(k) or ""]. *)
Definition get_str_or_empty (o : option pyvalue) : option pystr :=
  match o with
  | None | Some PyNone => Some []
  | Some (PyStr s) => Some s
  | _ => None
  end.

(** [d.get(k, [])], a list whose elements are read by [f]. *)
Definition get_list {A} (f : pyvalue → option A) (o : option pyvalue)
    : option (list A) :=
  match o with
  | None => Some []
  | Some (PyList l) => mapM f l
  | _ => None
  end.

Definition bitem_view (v : pyvalue) : option bitem :=
  match v with
  | PyDict d =>
      n ← get_str_or_empty (d !! py "name");
      t ← get_str_or_empty (d !! py "type");
      Some (BItem n t)
  | _ => None
  end.

Definition protocol_view (v : pyvalue) : option protocol :=
  match v with
  | PyDict d =>
      id ← d !! py "id" ≫= as_str;
      name ← get_opt_str (d !! py "name");
      file ← get_opt_str (d !! py "file");
      os ← get_list as_str (d !! py "oracles");
      bd ← get_list bitem_view (d !! py "oraclesBreakdown");
      Some (Protocol id name file os bd)
  | _ => None
  end.

Definition dataset_view (v : pyvalue) : option (gmap pystr protocol) :=
  match v with
  | PyDict d =>
      if bool_decide (map_Forall (λ _ r, is_Some (protocol_view r)) d)
      then Some (omap protocol_view d)
      else None
  | _ => None
  end.

(** ** The command ([main]) *)

Inductive out_format : Type := Human | Json.

Record cli_args : Type :=
  Args {
    arg_out : out_format;
    arg_dry_run : bool;
    arg_dump_id : option pystr;
    arg_dump_all : bool;
    arg_debug_ast : bool
  }.

(** What [main] prints: a text, or a document through [json.dumps]. *)
Inductive printed : Type :=
  | Line (text : pystr)
  | Dumped (doc : json).

(** How a run ends: what it printed, the state of the snapshot path, and
    the exception that ended it, if any. *)
Record run : Type :=
  Run {
    stdout : list printed;
    snapshot_after : path_state;
    raised : option pyexn
  }.

(** The lines [--debug-ast] prints while the target files are read. *)
Definition debug_lines (repo : pystr → option node) : list printed :=
  omap (λ fname,
          root ← repo fname;
          per_file ← parse_file_ts root fname;
          Some (Line (py "(ast) " ++ fname ++ py ": objects_as_protocols="
                      ++ py (pretty (size per_file)))))
       TARGET_FILES.

(** A change record as a Python value; the tuples of [types] are written
    as lists, which is what [json.dumps] makes of them. *)
Definition py_of_opt_str (o : option pystr) : pyvalue :=
  match o with Some s => PyStr s | None => PyNone end.

Definition py_of_change (c : change) : pyvalue :=
  PyDict {[ py "id" := PyStr (c_id c);
            py "name" := py_of_opt_str (c_name c);
            py "file" := py_of_opt_str (c_file c);
            py "plus" := PyList (PyStr <$> c_plus c);
            py "minus" := PyList (PyStr <$> c_minus c);
            py "types" :=
              PyList ((λ t, PyList [PyStr t.1.1; PyStr t.1.2; PyStr t.2])
                        <$> c_types c) ]}.

(** What [main] prints for a change-set, in either format. *)
Definition report (out : out_format) (changes : list change) : printed :=
  match out with
  | Json =>
      Dumped (json_dumps
                (PyDict {[ py "changed_count" := PyInt (Z.of_nat (length changes));
                           py "changes" := PyList (py_of_change <$> changes) ]}))
  | Human => Line (print_human changes)
  end.

(** [main], from the parsed arguments, the data folder and the state of
    the snapshot path. Setting up the grammar is taken to succeed. [None]
    stands for a run outside the model: the snapshot holds a value that is
    not a dataset. *)
Definition main (args : cli_args) (repo : pystr → option node)
    (snapshot_file : path_state) : option run :=
  dataset ← main_dataset repo;
  let debug := if arg_debug_ast args then debug_lines repo else [] in
  if arg_dump_all args then
    Some (Run (debug ++ [Dumped (json_dumps
                                   (PyList (PyStr <$> sorted_set (dom dataset))))])
              snapshot_file None)
  else if truthy (default [] (arg_dump_id args)) then
    let id := default [] (arg_dump_id args) in
    Some (Run (debug
               ++ [match dataset !! id with
                   | None => Line (py "(debug) id " ++ id
                                   ++ py " not found in parsed dataset")
                   | Some entry => Dumped (json_dumps (py_of_protocol entry))
                   end])
              snapshot_file None)
  else
    match load_snapshot snapshot_file with
    | Raises e => Some (Run debug snapshot_file (Some e))
    | Returns PyNone =>
        if arg_dry_run args then
          Some (Run (debug
                     ++ [Line (py "DRY-RUN: no snapshot found; would initialize oracle_state.json.")])
                    snapshot_file None)
        else
          Some (Run (debug
                     ++ [Line (py "Initialized snapshot at oracle_state.json. Next run will show changes.")])
                    (save_snapshot dataset) None)
    | Returns prev =>
        prev_ds ← dataset_view prev;
        let changes := diff_states prev_ds dataset in
        Some (Run (debug ++ [report (arg_out args) changes])
                  (if arg_dry_run args then snapshot_file
                   else save_snapshot dataset)
                  None)
    end.

(** The flags with which [main] goes on to the snapshot: no dump. *)
Definition no_dump (args : cli_args) : Prop :=
  arg_dump_all args = false ∧ truthy (default [] (arg_dump_id args)) = false.

(** The plain command line: text report, no dry run, no dump, no debug. *)
Definition plain_args : cli_args := Args Human false None false false.

(** The dataset of the data folder [two_files]. *)
Definition two_files_dataset : gmap pystr protocol :=
  {[ py "7" := Protocol (py "7") (Some (py "Baz")) (Some (py "data2.ts")) [] [] ]}.

(** The first run on the data folder [two_files]. *)
Definition two_files_first_run : run :=
  Run [Line (py "Initialized snapshot at oracle_state.json. Next run will show changes.")]
      (save_snapshot two_files_dataset) None.

(** ** The runner's link to the commit ([oracleChangeDetector.py])

    [add_commit_link_to_output] rewrites, line by line, the text report the
    tracker printed. The string methods it uses: *)

(** [s.startswith(sub)]. *)
Fixpoint starts_with (sub s : pystr) : bool :=
  match sub, s with
  | [], _ => true
  | _ :: _, [] => false
  | c :: sub', d :: s' => bool_decide (c = d) && starts_with sub' s'
  end.

(** [s.endswith(sub)]. *)
Definition ends_with (sub s : pystr) : bool :=
  starts_with (reverse sub) (reverse s).

(** [sub in s]. *)
Fixpoint contains (sub s : pystr) : bool :=
  starts_with sub s
  || match s with
     | [] => false
     | _ :: s' => contains sub s'
     end.

(** [s.split(sep, 1)] for a separator that is not empty: the text before
    the first occurrence of [sep] and the text after it, or [None] when
    [sep] does not occur (the list then has the one element [s]). *)
Fixpoint split_once (sep s : pystr) : option (pystr * pystr) :=
  if starts_with sep s then Some ([], drop (length sep) s)
  else match s with
       | [] => None
       | c :: s' => ab ← split_once sep s'; Some (c :: ab.1, ab.2)
       end.

(** [s.replace(old, new)] for an [old] that is not empty: the occurrences
    of [old] are replaced from the left, none overlapping another; [skip]
    counts the characters of an occurrence still to pass over. *)
Fixpoint replace_from (skip : nat) (old new s : pystr) : pystr :=
  match s with
  | [] => []
  | c :: s' =>
      match skip with
      | S k => replace_from k old new s'
      | 0 =>
          if starts_with old s then new ++ replace_from (length old - 1) old new s'
          else c :: replace_from 0 old new s'
      end
  end.

Definition replace (old new s : pystr) : pystr := replace_from 0 old new s.

Definition ALLOWED_DATA_FILES : gset pystr :=
  {[ py "data.ts"; py "data1.ts"; py "data2.ts"; py "data3.ts"; py "data4.ts" ]}.

Definition DATA_SUBDIR : pystr := py "defi/src/protocols".

(** The body of the loop of [add_commit_link_to_output] for one line.
    [repo_web_url] is [REPO_WEB_URL]; [last_commit] stands for
    [last_commit_for_file_rel_to_repo], which asks git. A failing
    [split(...)[1]] is the [except] branch: no file. *)
Definition link_line (repo_web_url : pystr) (last_commit : pystr → option pystr)
    (line : pystr) : pystr :=
  if contains (py "has the following changes:") line
     && contains (py "Protocol ") line then
    let file_part_clean :=
      ab ← split_once (py " on ") line;
      let file_part :=
        match split_once (py " has the following changes:") ab.2 with
        | Some cd => cd.1
        | None => ab.2
        end in
      Some (strip (replace (py "</i>") [] (replace (py "<i>") [] file_part))) in
    match file_part_clean with
    | Some f =>
        if truthy f && bool_decide (f ∈ ALLOWED_DATA_FILES) then
          match last_commit (DATA_SUBDIR ++ py "/" ++ f) with
          | Some sha =>
              if truthy sha then
                let link := py "<a href=" ++ [34%N] ++ repo_web_url ++ py "/commit/"
                            ++ sha ++ [34%N] ++ py ">Commit</a>" in
                if ends_with (py "changes:") (rstrip line) then
                  removelast (rstrip line) ++ py " (" ++ link ++ py "):"
                else line ++ py " (" ++ link ++ py ")"
              else line
          | None => line
          end
        else line
    | None => line
    end
  else line.

(** The first line [print_human] writes for a change record, up to the
    closing bracket after the id. *)
Definition header_prefix (c : change) : pystr :=
  [128736; 65039]%N ++ py " <b>Protocol " ++ escape (default [] (c_name c))
  ++ py "</b> (id <code>" ++ escape (c_id c) ++ py "</code>)".

(** A change record of a protocol whose name has the word [on] in it. *)
Definition change_on_solana : change :=
  Change (py "p9") (Some (py "Lido on Solana")) (Some (py "data.ts"))
         [py "Pyth"] [] [].

(** A git history with a commit for every file. *)
Definition some_commit (path : pystr) : option pystr := Some (py "abc123").

(** A character at which [str.splitlines] ends a line. *)
Definition is_linebreak (c : N) : bool :=
  ((10 <=? c) && (c <=? 13) || (28 <=? c) && (c <=? 30)
   || (c =? 133) || (c =? 8232) || (c =? 8233))%N.

(** [s.splitlines()]: the lines without their ends; a carriage return
    with a line feed after it is one line end; no empty last line after a
    final line end. *)
Fixpoint splitlines (s : pystr) : list pystr :=
  match s with
  | [] => []
  | c :: s' =>
      if is_linebreak c then
        [] :: match s' with
              | d :: s'' =>
                  if ((c =? 13) && (d =? 10))%N then splitlines s''
                  else splitlines s'
              | [] => []
              end
      else match splitlines s' with
           | [] => [[c]]
           | l :: ls => (c :: l) :: ls
           end
  end.

Definition add_commit_link_to_output (repo_web_url : pystr)
    (last_commit : pystr → option pystr) (text : pystr) : pystr :=
  join [10%N] (link_line repo_web_url last_commit <$> splitlines text).

(** A string with no line end in it. *)
Definition one_line (s : pystr) : Prop := Forall (λ c, is_linebreak c = false) s.

(** A change record none of whose strings has a line end in it. *)
Definition change_one_line (c : change) : Prop :=
  one_line (c_id c) ∧ one_line (default [] (c_name c))
  ∧ one_line (default [] (c_file c))
  ∧ Forall one_line (c_plus c) ∧ Forall one_line (c_minus c)
  ∧ Forall (λ t, one_line t.1.1 ∧ one_line t.1.2 ∧ one_line t.2) (c_types c).

(** A change record of a protocol of [data1.ts]. *)
Definition change_aave : change :=
  Change (py "7") (Some (py "Aave")) (Some (py "data1.ts")) [py "Pyth"] [] [].

(** * Properties *)

(** ** Sorting *)

Section py_sort_facts.
Context {A K : Type}.
Context `{Lexico K, !StrictOrder (@lexico K _), !TrichotomyT (@lexico K _)}.
Implicit Types (key : A → K) (l : list A).

Lemma key_le_total key : Total (key_le key).
Proof.
  intros x y. unfold key_le.
  destruct (trichotomy lexico (key x) (key y)) as [Hlt|[Heq|Hgt]].
  - left. intros Hyx. exact (irreflexivity lexico _ (transitivity Hlt Hyx)).
  - left. rewrite Heq. apply irreflexivity, _.
  - right. intros Hxy. exact (irreflexivity lexico _ (transitivity Hgt Hxy)).
Qed.

Lemma key_le_trans key : Transitive (key_le key).
Proof.
  intros x y z Hxy Hyz Hzx. unfold key_le in *.
  destruct (trichotomy lexico (key x) (key y)) as [Hlt|[Heq|Hgt]]; [|congruence|done].
  apply Hyz. by trans (key x).
Qed.

Lemma sorted_key_Permutation key l : sorted_key key l ≡ₚ l.
Proof. apply merge_sort_Permutation. Qed.

Lemma sorted_key_StronglySorted key l :
  StronglySorted (key_le key) (sorted_key key l).
Proof.
  apply StronglySorted_merge_sort; [apply key_le_trans|apply key_le_total].
Qed.

Lemma elem_of_sorted_key key l x : x ∈ sorted_key key l ↔ x ∈ l.
Proof. by rewrite sorted_key_Permutation. Qed.

(** When the key determines the element, the sorted list is the only
    rearrangement of the list that is in order. *)
Lemma sorted_key_unique key l l' :
  Inj (=) (=) key →
  StronglySorted (key_le key) l' → l' ≡ₚ l → l' = sorted_key key l.
Proof.
  intros Hinj Hs Hp.
  assert (AntiSymm (=) (key_le key)) as Hanti.
  { intros x y Hxy Hyx. apply Hinj. unfold key_le in *.
    by destruct (trichotomy lexico (key x) (key y)) as [?|[?|?]]. }
  apply (StronglySorted_unique (key_le key)); [done| |].
  - apply sorted_key_StronglySorted.
  - by rewrite sorted_key_Permutation.
Qed.
End py_sort_facts.

Lemma sorted_Permutation l : sorted l ≡ₚ l.
Proof. apply sorted_key_Permutation. Qed.

Lemma elem_of_sorted l x : x ∈ sorted l ↔ x ∈ l.
Proof. by rewrite sorted_Permutation. Qed.

(** Sorting a list without duplicates gives a strictly increasing list. *)
Lemma sorted_strict l : NoDup l → StronglySorted lexico (sorted l).
Proof.
  intros Hnd. rewrite <-sorted_Permutation in Hnd.
  pose proof (sorted_key_StronglySorted (K:=pystr) id l) as Hs.
  fold (sorted l) in Hs. induction Hs as [|x l' _ IH Hall]; [constructor|].
  apply NoDup_cons in Hnd as [Hx Hnd]. constructor; [by apply IH|].
  apply Forall_forall. intros y Hy.
  rewrite Forall_forall in Hall. specialize (Hall y Hy). unfold key_le in Hall.
  destruct (trichotomy lexico x y) as [?|[->|?]]; done.
Qed.

Lemma elem_of_sorted_set s x : x ∈ sorted_set s ↔ x ∈ s.
Proof. unfold sorted_set. by rewrite elem_of_sorted, elem_of_elements. Qed.

Lemma sorted_set_strict s : StronglySorted lexico (sorted_set s).
Proof. apply sorted_strict, NoDup_elements. Qed.

Lemma sorted_set_NoDup s : NoDup (sorted_set s).
Proof. unfold sorted_set. rewrite sorted_Permutation. apply NoDup_elements. Qed.

Lemma sorted_set_empty : sorted_set ∅ = [].
Proof. unfold sorted_set. by rewrite elements_empty. Qed.

(** A strictly increasing list is determined by its elements. *)
Lemma strictly_sorted_unique (l1 l2 : list pystr) :
  StronglySorted lexico l1 → StronglySorted lexico l2 →
  (∀ x, x ∈ l1 ↔ x ∈ l2) → l1 = l2.
Proof.
  intros H1 H2 Heq.
  assert (Hnd : ∀ l : list pystr, StronglySorted lexico l → NoDup l).
  { clear. intros l. induction 1 as [|x l _ IH Hall]; constructor; [|done].
    intros Hx. rewrite Forall_forall in Hall.
    exact (irreflexivity lexico x (Hall x Hx)). }
  apply (StronglySorted_unique_strong lexico); [|done..|].
  - intros x y _ _ Hxy Hyx. destruct (irreflexivity lexico x). by trans y.
  - apply NoDup_Permutation; auto.
Qed.

(** ** Stripping whitespace *)

Lemma lstrip_nil_blank s : lstrip s = [] ↔ blank s = true.
Proof.
  induction s as [|c s IH]; simpl; [done|].
  destruct (is_space c); simpl; [done|]. split; discriminate.
Qed.

Lemma blank_reverse s : blank (reverse s) = blank s.
Proof.
  unfold blank. apply eq_true_iff_eq.
  rewrite !forallb_forall. setoid_rewrite <-list_elem_of_In.
  by setoid_rewrite elem_of_reverse.
Qed.

(** [strip] leaves nothing exactly of the blank strings. *)
Lemma strip_nil_blank s : strip s = [] ↔ blank s = true.
Proof.
  unfold strip, rstrip. split.
  - intros Hs. apply (f_equal reverse) in Hs.
    rewrite reverse_involutive, reverse_nil in Hs.
    apply lstrip_nil_blank in Hs. rewrite blank_reverse in Hs.
    destruct (lstrip s) as [|c t] eqn:Hl; [by apply lstrip_nil_blank|].
    assert (is_space c = false) as Hc.
    { clear Hs. induction s as [|c' s IH]; simpl in Hl; [done|].
      destruct (is_space c') eqn:Hc'; [auto|congruence]. }
    simpl in Hs. by rewrite Hc in Hs.
  - intros Hs. apply lstrip_nil_blank in Hs. by rewrite Hs.
Qed.

Lemma lstrip_no_leading_space s : no_leading_space (lstrip s).
Proof.
  induction s as [|c s IH]; simpl; [done|].
  by destruct (is_space c) eqn:Hc.
Qed.

Lemma lstrip_fixed s : no_leading_space s → lstrip s = s.
Proof. destruct s as [|c s]; simpl; [done|]. by intros ->. Qed.

Lemma lstrip_snoc w c :
  is_space c = false → ∃ w', lstrip (w ++ [c]) = w' ++ [c].
Proof.
  intros Hc. induction w as [|d w IH]; simpl.
  - exists []. by rewrite Hc.
  - destruct (is_space d); [done|]. by exists (d :: w).
Qed.

Lemma rstrip_no_leading_space s :
  no_leading_space s → no_leading_space (rstrip s).
Proof.
  unfold rstrip. destruct s as [|c s]; [done|]. simpl. intros Hc.
  rewrite reverse_cons. destruct (lstrip_snoc (reverse s) c Hc) as [w' ->].
  by rewrite reverse_app.
Qed.

Lemma strip_idemp s : strip (strip s) = strip s.
Proof.
  unfold strip.
  rewrite (lstrip_fixed (rstrip (lstrip s)))
    by apply rstrip_no_leading_space, lstrip_no_leading_space.
  unfold rstrip. rewrite reverse_involutive.
  by rewrite (lstrip_fixed (lstrip _)) by apply lstrip_no_leading_space.
Qed.

Lemma truthy_strip_blank s : truthy (strip s) = negb (blank s).
Proof.
  destruct (blank s) eqn:Hb.
  - apply strip_nil_blank in Hb. by rewrite Hb.
  - destruct (strip s) eqn:Hs; [|done].
    apply strip_nil_blank in Hs. congruence.
Qed.

(** ** The name-to-type map *)

Lemma breakdown_name_to_type_snoc lst x :
  breakdown_name_to_type (lst ++ [x]) =
    if truthy (strip (b_name x))
    then <[strip (b_name x) := strip (b_type x)]> (breakdown_name_to_type lst)
    else breakdown_name_to_type lst.
Proof. unfold breakdown_name_to_type. by rewrite foldl_app. Qed.

Lemma truthy_true {A} (l : list A) : truthy l = true ↔ l ≠ [].
Proof. by destruct l. Qed.

(** The keys of the map are the stripped, non-empty names. *)
Lemma dom_breakdown_name_to_type lst n :
  n ∈ dom (breakdown_name_to_type lst) ↔ n ∈ breakdown_names lst.
Proof.
  unfold breakdown_names.
  induction lst as [|x lst IH] using rev_ind.
  - unfold breakdown_name_to_type. simpl. rewrite dom_empty. set_solver.
  - rewrite breakdown_name_to_type_snoc, fmap_app, filter_app, elem_of_app.
    rewrite <-IH. simpl. rewrite filter_cons, filter_nil.
    destruct (strip (b_name x)) as [|c s] eqn:Hs; simpl.
    + set_solver.
    + rewrite dom_insert. set_solver.
Qed.

(** X6. The name-to-type map holds a type under a name exactly when the
    name is not empty and some entry has it as its stripped name; the type
    is then the stripped type of the last such entry of the list. *)
Lemma breakdown_name_to_type_lookup lst n t :
  breakdown_name_to_type lst !! n = Some t ↔
  n ≠ [] ∧ ∃ l1 x l2, lst = l1 ++ x :: l2 ∧ strip (b_name x) = n ∧
    strip (b_type x) = t ∧ Forall (λ y, strip (b_name y) ≠ n) l2.
Proof.
  revert t. induction lst as [|x lst IH] using rev_ind; intros t.
  - unfold breakdown_name_to_type. simpl. rewrite lookup_empty. split; [done|].
    intros (_ & l1 & x & l2 & Hl & _). by destruct l1.
  - rewrite breakdown_name_to_type_snoc.
    destruct (decide (strip (b_name x) = n)) as [Hn|Hn].
    + destruct (truthy (strip (b_name x))) eqn:Ht.
      * rewrite Hn, lookup_insert_eq. apply truthy_true in Ht. split.
        -- intros [= <-]. split; [congruence|]. by exists lst, x, [].
        -- intros (_ & l1 & y & l2 & Hl & Hy & Hty & Hall).
           destruct l2 as [|z l2 _] using rev_ind.
           ++ apply app_inj_tail in Hl as [_ ->]. by rewrite Hty.
           ++ rewrite app_comm_cons, app_assoc in Hl.
              apply app_inj_tail in Hl as [_ ->].
              apply Forall_app in Hall as [_ Hz]. by inv Hz.
      * destruct (strip (b_name x)); [|done]. subst n. rewrite IH. naive_solver.
    + assert ((if truthy (strip (b_name x))
               then <[strip (b_name x) := strip (b_type x)]>
                      (breakdown_name_to_type lst)
               else breakdown_name_to_type lst) !! n
              = breakdown_name_to_type lst !! n) as ->.
      { destruct (truthy _); [by rewrite lookup_insert_ne|done]. }
      rewrite IH. split.
      * intros (Hne & l1 & y & l2 & -> & Hy & Hty & Hall).
        split; [done|]. exists l1, y, (l2 ++ [x]).
        rewrite <-app_assoc. split_and!; [done..|].
        apply Forall_app. split; [done|]. by constructor.
      * intros (Hne & l1 & y & l2 & Hl & Hy & Hty & Hall).
        split; [done|].
        destruct l2 as [|z l2 _] using rev_ind.
        -- apply app_inj_tail in Hl as [_ ->]. done.
        -- rewrite app_comm_cons, app_assoc in Hl.
           apply app_inj_tail in Hl as [-> ->].
           apply Forall_app in Hall as [Hall _]. by exists l1, y, l2.
Qed.

(** Entries with a blank name do not reach the map. *)
Lemma breakdown_name_to_type_drop_blank lst :
  breakdown_name_to_type (filter (λ x, blank (b_name x) = false) lst)
  = breakdown_name_to_type lst.
Proof.
  induction lst as [|x lst IH] using rev_ind; [done|].
  rewrite filter_app, filter_cons, filter_nil.
  rewrite (breakdown_name_to_type_snoc lst), truthy_strip_blank.
  destruct (blank (b_name x)) eqn:Hb; simpl.
  - by rewrite app_nil_r.
  - by rewrite breakdown_name_to_type_snoc, truthy_strip_blank, Hb, IH.
Qed.

(** The map reads names and types with surrounding whitespace removed. *)
Lemma breakdown_name_to_type_strip lst :
  breakdown_name_to_type ((λ x, BItem (strip (b_name x)) (strip (b_type x))) <$> lst)
  = breakdown_name_to_type lst.
Proof.
  induction lst as [|x lst IH] using rev_ind; [done|].
  rewrite fmap_app. simpl.
  rewrite !breakdown_name_to_type_snoc. simpl.
  by rewrite !strip_idemp, IH.
Qed.

(** The names the map is keyed by, entry by entry. *)
Lemma elem_of_breakdown_names lst n :
  n ∈ breakdown_names lst ↔ names_stripped lst n.
Proof.
  unfold breakdown_names, names_stripped.
  rewrite list_elem_of_filter, list_elem_of_fmap. split.
  - intros (Hne & x & -> & Hx). exists x. split_and!; [done| |done].
    destruct (blank (b_name x)) eqn:Hb; [|done].
    by apply strip_nil_blank in Hb.
  - intros (x & Hx & Hb & <-). split; [|by exists x].
    intros Hs. apply strip_nil_blank in Hs. congruence.
Qed.

Lemma last_stripped_type_snoc lst x n :
  last_stripped_type (lst ++ [x]) n
  = if decide (strip (b_name x) = n) then Some (strip (b_type x))
    else last_stripped_type lst n.
Proof.
  unfold last_stripped_type. rewrite filter_app, filter_cons, filter_nil.
  case_decide.
  - rewrite fmap_app. cbn [fmap list_fmap]. by rewrite last_snoc.
  - by rewrite app_nil_r.
Qed.

(** The type the map holds under a name that is not empty. *)
Lemma breakdown_name_to_type_last lst n :
  n ≠ [] → breakdown_name_to_type lst !! n = last_stripped_type lst n.
Proof.
  intros Hn. induction lst as [|x lst IH] using rev_ind; [done|].
  rewrite breakdown_name_to_type_snoc, last_stripped_type_snoc.
  case_decide as Hx.
  - rewrite Hx. destruct n; [done|]. simpl. by rewrite lookup_insert_eq.
  - destruct (truthy (strip (b_name x))); [|done].
    by rewrite lookup_insert_ne.
Qed.

Lemma breakdown_name_to_type_Some lst n t :
  breakdown_name_to_type lst !! n = Some t
  ↔ n ≠ [] ∧ last_stripped_type lst n = Some t.
Proof.
  split.
  - intros Hl.
    assert (n ≠ []) as Hn.
    { assert (n ∈ breakdown_names lst) as Hin
        by (by apply dom_breakdown_name_to_type, elem_of_dom).
      unfold breakdown_names in Hin. by apply list_elem_of_filter in Hin as [? _]. }
    by rewrite <-breakdown_name_to_type_last.
  - intros [Hn Hl]. by rewrite breakdown_name_to_type_last.
Qed.

(** ** The diff, one record at a time *)

Lemma diff_record_unfold pid a b :
  diff_record pid a b =
    if truthy (record_plus a b) || truthy (record_plus b a)
       || truthy (record_types a b)
    then Some (Change pid (py_or (p_name b) (p_name a)) (p_file b)
                      (record_plus a b) (record_plus b a) (record_types a b))
    else None.
Proof. reflexivity. Qed.

Lemma diff_record_Some pid a b c :
  diff_record pid a b = Some c →
  c = Change pid (py_or (p_name b) (p_name a)) (p_file b)
             (record_plus a b) (record_plus b a) (record_types a b).
Proof. rewrite diff_record_unfold. case_match; congruence. Qed.

Lemma elem_of_record_plus a b x : x ∈ record_plus a b ↔ newly_present a b x.
Proof.
  unfold record_plus, newly_present.
  rewrite elem_of_sorted_set, elem_of_union, elem_of_list_to_set.
  rewrite elem_of_sorted_set, !elem_of_difference, !elem_of_list_to_set.
  rewrite !dom_breakdown_name_to_type. tauto.
Qed.

Lemma record_plus_sorted a b : StronglySorted lexico (record_plus a b).
Proof. apply sorted_set_strict. Qed.

Lemma elem_of_record_types a b n t1 t2 :
  (n, t1, t2) ∈ record_types a b ↔
  breakdown_name_to_type (p_oraclesBreakdown a) !! n = Some t1
  ∧ breakdown_name_to_type (p_oraclesBreakdown b) !! n = Some t2
  ∧ t1 ≠ t2.
Proof.
  unfold record_types. rewrite list_elem_of_fmap. split.
  - intros (m & [= -> -> ->] & Hm).
    apply list_elem_of_filter in Hm as [Hne Hm].
    apply elem_of_sorted_set, elem_of_intersection in Hm as [Ha Hb].
    apply elem_of_dom in Ha as [ta Ha]. apply elem_of_dom in Hb as [tb Hb].
    rewrite !lookup_total_alt, Ha, Hb in Hne |- *. done.
  - intros (Ha & Hb & Hne). exists n.
    rewrite !lookup_total_alt, Ha, Hb. simpl. split; [done|].
    apply list_elem_of_filter. rewrite !lookup_total_alt, Ha, Hb. simpl.
    split; [done|].
    apply elem_of_sorted_set, elem_of_intersection. split; by apply elem_of_dom.
Qed.

(** The subscripts [a_bt[n]] and [b_bt[n]] never fail: every name the
    comprehension visits is a key of both maps. *)
Lemma record_types_keys a b n t1 t2 :
  (n, t1, t2) ∈ record_types a b →
  is_Some (breakdown_name_to_type (p_oraclesBreakdown a) !! n)
  ∧ is_Some (breakdown_name_to_type (p_oraclesBreakdown b) !! n).
Proof. rewrite elem_of_record_types. naive_solver. Qed.

Lemma record_types_names_sorted a b :
  StronglySorted lexico ((λ t, t.1.1) <$> record_types a b).
Proof.
  unfold record_types. rewrite <-list_fmap_compose.
  rewrite (list_fmap_ext _ id _ (λ _ _ _, eq_refl)), list_fmap_id.
  generalize (sorted_set_strict
    (dom (breakdown_name_to_type (p_oraclesBreakdown a))
     ∩ dom (breakdown_name_to_type (p_oraclesBreakdown b)))).
  induction 1 as [|x l Hl IH Hall]; [constructor|].
  rewrite filter_cons. case_decide; [|done].
  constructor; [done|]. rewrite Forall_forall in Hall |- *.
  intros y Hy. apply list_elem_of_filter in Hy as [_ Hy]. auto.
Qed.

Lemma diff_record_same pid a : diff_record pid a a = None.
Proof.
  rewrite diff_record_unfold.
  assert (record_plus a a = []) as ->.
  { unfold record_plus.
    by rewrite !difference_diag_L, sorted_set_empty, list_to_set_nil,
      (left_id_L ∅ (∪)), sorted_set_empty. }
  assert (record_types a a = []) as ->; [|done].
  unfold record_types. simpl.
  induction (sorted_set _) as [|n l IH]; [done|].
  rewrite filter_cons. by case_decide.
Qed.

Lemma diff_record_is_Some pid a b :
  is_Some (diff_record pid a b) ↔
  record_plus a b ≠ [] ∨ record_plus b a ≠ [] ∨ record_types a b ≠ [].
Proof.
  rewrite diff_record_unfold.
  destruct (record_plus a b), (record_plus b a), (record_types a b); simpl;
    split; (by eauto) || (intros [?|[?|?]]; done) || by inversion 1.
Qed.

(** ** The diff, over the datasets *)

Lemma diff_states_omap prev nxt :
  diff_states prev nxt
  = omap (diff_at prev nxt) (sorted_set (dom prev ∪ dom nxt)).
Proof.
  unfold diff_states.
  enough (∀ ids acc,
    foldl (λ changes pid,
             match prev !! pid, nxt !! pid with
             | Some a, Some b =>
                 match diff_record pid a b with
                 | Some c => changes ++ [c]
                 | None => changes
                 end
             | _, _ => changes
             end) acc ids
    = acc ++ omap (diff_at prev nxt) ids) as Hloop by apply Hloop.
  induction ids as [|pid ids IH]; intros acc; simpl.
  - by rewrite app_nil_r.
  - rewrite IH. unfold diff_at.
    destruct (prev !! pid) as [a|]; simpl; [|done].
    destruct (nxt !! pid) as [b|]; simpl; [|done].
    destruct (diff_record pid a b); simpl; [|done]. by rewrite <-app_assoc.
Qed.

Lemma elem_of_diff_states prev nxt c :
  c ∈ diff_states prev nxt ↔
  ∃ a b, prev !! c_id c = Some a ∧ nxt !! c_id c = Some b
         ∧ diff_record (c_id c) a b = Some c.
Proof.
  rewrite diff_states_omap, list_elem_of_omap. unfold diff_at. split.
  - intros (pid & _ & Hc).
    destruct (prev !! pid) as [a|] eqn:Ha; simpl in Hc; [|done].
    destruct (nxt !! pid) as [b|] eqn:Hb; simpl in Hc; [|done].
    pose proof (diff_record_Some _ _ _ _ Hc) as ->. simpl. eauto.
  - intros (a & b & Ha & Hb & Hc). exists (c_id c). split.
    + apply elem_of_sorted_set, elem_of_union. left. by apply elem_of_dom.
    + by rewrite Ha, Hb.
Qed.

(** ** Claims about the diff *)

(** C2. Diffing a dataset against itself yields the empty change-set. *)
Theorem diff_states_self (D : gmap pystr protocol) : diff_states D D = [].
Proof.
  destruct (diff_states D D) as [|c l] eqn:Hd; [done|].
  assert (c ∈ diff_states D D) as Hc by (rewrite Hd; left).
  apply elem_of_diff_states in Hc as (a & b & Ha & Hb & Hc).
  assert (b = a) as -> by congruence.
  by rewrite diff_record_same in Hc.
Qed.

(** C3. An id with a record on one side only gets no change record,
    whatever the record that is there holds. *)
Theorem diff_states_skips_unshared (prev nxt : gmap pystr protocol) (pid : pystr) :
  prev !! pid = None ∨ nxt !! pid = None →
  ∀ c, c ∈ diff_states prev nxt → c_id c ≠ pid.
Proof.
  intros Hmiss c Hc <-.
  apply elem_of_diff_states in Hc as (a & b & Ha & Hb & _).
  destruct Hmiss; congruence.
Qed.

(** Scenario D: the protocol [p2], new in the second dataset with a
    non-empty [oracles] list, is not reported; indeed nothing is. *)
Lemma diff_states_skips_unshared_scenario_d :
  (scenario_d_prev !! py "p2" = None ∨ scenario_d_next !! py "p2" = None)
  ∧ (∃ r, scenario_d_next !! py "p2" = Some r ∧ p_oracles r ≠ [])
  ∧ (∀ c, c ∈ diff_states scenario_d_prev scenario_d_next → c_id c ≠ py "p2")
  ∧ diff_states scenario_d_prev scenario_d_next = [].
Proof.
  assert (scenario_d_prev !! py "p2" = None ∨ scenario_d_next !! py "p2" = None)
    as Hmiss by (left; vm_compute; reflexivity).
  split; [exact Hmiss|]. split.
  - eexists. split; [vm_compute; reflexivity|discriminate].
  - split.
    + exact (diff_states_skips_unshared scenario_d_prev scenario_d_next (py "p2") Hmiss).
    + vm_compute. reflexivity.
Defined.

(** C4. For an id with a record on both sides, [plus] is the strictly
    increasing list of the strings that are oracles of the new record and
    not of the old one, or breakdown names of the new record and not of the
    old one; [minus] is the same with the records exchanged; and a record
    is emitted as soon as one of the two is not empty. In scenario A the
    diff is the single record for [p1] with [plus = [c]], [minus = [a]]. *)
Theorem diff_states_plus_minus :
  (∀ (prev nxt : gmap pystr protocol) pid a b,
     prev !! pid = Some a → nxt !! pid = Some b →
     (∀ c, c ∈ diff_states prev nxt → c_id c = pid →
        StronglySorted lexico (c_plus c)
        ∧ (∀ x, x ∈ c_plus c ↔ newly_present a b x)
        ∧ StronglySorted lexico (c_minus c)
        ∧ (∀ x, x ∈ c_minus c ↔ newly_present b a x))
     ∧ ((∃ x, newly_present a b x ∨ newly_present b a x) →
        ∃ c, c ∈ diff_states prev nxt ∧ c_id c = pid))
  ∧ diff_states scenario_a_prev scenario_a_next
    = [Change (py "p1") None None [py "c"] [py "a"] []].
Proof.
  split; [|vm_compute; reflexivity].
  intros prev nxt pid a b Ha Hb. split.
  - intros c Hc <-.
    apply elem_of_diff_states in Hc as (a' & b' & Ha' & Hb' & Hc).
    assert (a' = a) as -> by congruence. assert (b' = b) as -> by congruence.
    rewrite (diff_record_Some _ _ _ _ Hc). simpl.
    split_and!; auto using record_plus_sorted, elem_of_record_plus.
  - intros [x Hx].
    assert (is_Some (diff_record pid a b)) as [c Hc].
    { apply diff_record_is_Some.
      destruct Hx as [Hx|Hx]; apply elem_of_record_plus in Hx;
        [left|right; left]; intros Hnil; rewrite Hnil in Hx; by inv Hx. }
    exists c. pose proof (diff_record_Some _ _ _ _ Hc) as Hid.
    assert (c_id c = pid) as Hpid by (by rewrite Hid).
    split; [|done]. apply elem_of_diff_states. exists a, b. by rewrite Hpid.
Qed.

(** The general part of C4 at scenario A. *)
Lemma diff_states_plus_minus_scenario_a :
  let a := Protocol (py "p1") None None [py "a"; py "b"] [] in
  let b := Protocol (py "p1") None None [py "b"; py "c"] [] in
  (∀ c, c ∈ diff_states scenario_a_prev scenario_a_next → c_id c = py "p1" →
     StronglySorted lexico (c_plus c)
     ∧ (∀ x, x ∈ c_plus c ↔ newly_present a b x)
     ∧ StronglySorted lexico (c_minus c)
     ∧ (∀ x, x ∈ c_minus c ↔ newly_present b a x))
  ∧ ((∃ x, newly_present a b x ∨ newly_present b a x) →
     ∃ c, c ∈ diff_states scenario_a_prev scenario_a_next ∧ c_id c = py "p1").
Proof.
  intros a b.
  apply (proj1 diff_states_plus_minus scenario_a_prev scenario_a_next (py "p1") a b);
    vm_compute; reflexivity.
Defined.

(** C5. For an id with a record on both sides, [types] holds one tuple
    [(name, old type, new type)] for each name that is a key of both
    name-to-type maps with different types, in increasing order of the
    names, and nothing else; such a name is in [plus] or [minus] only as a
    flat oracle; and a record is emitted as soon as there is such a name.
    In scenario C the diff is the single record for [p1] with the tuple
    for Chainlink and empty [plus] and [minus]. *)
Theorem diff_states_types :
  (∀ (prev nxt : gmap pystr protocol) pid a b,
     prev !! pid = Some a → nxt !! pid = Some b →
     let a_bt := breakdown_name_to_type (p_oraclesBreakdown a) in
     let b_bt := breakdown_name_to_type (p_oraclesBreakdown b) in
     (∀ c, c ∈ diff_states prev nxt → c_id c = pid →
        StronglySorted lexico ((λ t, t.1.1) <$> c_types c)
        ∧ (∀ n t1 t2, (n, t1, t2) ∈ c_types c ↔
             a_bt !! n = Some t1 ∧ b_bt !! n = Some t2 ∧ t1 ≠ t2)
        ∧ (∀ n, is_Some (a_bt !! n) → is_Some (b_bt !! n) →
             (n ∈ c_plus c ↔ n ∈ p_oracles b ∧ n ∉ p_oracles a)
             ∧ (n ∈ c_minus c ↔ n ∈ p_oracles a ∧ n ∉ p_oracles b)))
     ∧ ((∃ n t1 t2, a_bt !! n = Some t1 ∧ b_bt !! n = Some t2 ∧ t1 ≠ t2) →
        ∃ c, c ∈ diff_states prev nxt ∧ c_id c = pid))
  ∧ diff_states scenario_c_prev scenario_c_next
    = [Change (py "p1") None None [] []
              [(py "Chainlink", py "primary", py "secondary")]].
Proof.
  split; [|vm_compute; reflexivity].
  intros prev nxt pid a b Ha Hb a_bt b_bt. split.
  - intros c Hc <-.
    apply elem_of_diff_states in Hc as (a' & b' & Ha' & Hb' & Hc).
    assert (a' = a) as -> by congruence. assert (b' = b) as -> by congruence.
    rewrite (diff_record_Some _ _ _ _ Hc). simpl.
    split_and!; auto using record_types_names_sorted, elem_of_record_types.
    intros n Hna Hnb. rewrite !elem_of_record_plus. unfold newly_present.
    apply elem_of_dom, dom_breakdown_name_to_type in Hna, Hnb. tauto.
  - intros (n & t1 & t2 & Hn).
    assert (is_Some (diff_record pid a b)) as [c Hc].
    { apply diff_record_is_Some. right; right.
      apply elem_of_record_types in Hn. intros Hnil. rewrite Hnil in Hn. by inv Hn. }
    exists c. pose proof (diff_record_Some _ _ _ _ Hc) as Hid.
    assert (c_id c = pid) as Hpid by (by rewrite Hid).
    split; [|done]. apply elem_of_diff_states. exists a, b. by rewrite Hpid.
Qed.

(** The general part of C5 at scenario C. *)
Lemma diff_states_types_scenario_c :
  let a := Protocol (py "p1") None None [] [BItem (py "Chainlink") (py "primary")] in
  let b := Protocol (py "p1") None None [] [BItem (py "Chainlink") (py "secondary")] in
  let a_bt := breakdown_name_to_type (p_oraclesBreakdown a) in
  let b_bt := breakdown_name_to_type (p_oraclesBreakdown b) in
  (∀ c, c ∈ diff_states scenario_c_prev scenario_c_next → c_id c = py "p1" →
     StronglySorted lexico ((λ t, t.1.1) <$> c_types c)
     ∧ (∀ n t1 t2, (n, t1, t2) ∈ c_types c ↔
          a_bt !! n = Some t1 ∧ b_bt !! n = Some t2 ∧ t1 ≠ t2)
     ∧ (∀ n, is_Some (a_bt !! n) → is_Some (b_bt !! n) →
          (n ∈ c_plus c ↔ n ∈ p_oracles b ∧ n ∉ p_oracles a)
          ∧ (n ∈ c_minus c ↔ n ∈ p_oracles a ∧ n ∉ p_oracles b)))
  ∧ ((∃ n t1 t2, a_bt !! n = Some t1 ∧ b_bt !! n = Some t2 ∧ t1 ≠ t2) →
     ∃ c, c ∈ diff_states scenario_c_prev scenario_c_next ∧ c_id c = py "p1").
Proof.
  intros a b.
  apply (proj1 diff_states_types scenario_c_prev scenario_c_next (py "p1") a b);
    vm_compute; reflexivity.
Defined.

(** C1, as stated, fails: when Chainlink leaves the flat [oracles] list and
    enters the breakdown, it is both in [plus] (a new breakdown name) and
    in [minus] (a removed oracle). *)
Lemma plus_minus_not_disjoint :
  diff_states moved_prev moved_next
  = [Change (py "p1") (Some (py "Aave")) (Some (py "data.ts"))
            [py "Chainlink"] [py "Chainlink"] []]
  ∧ ¬ (∀ c, c ∈ diff_states moved_prev moved_next →
         ∀ x, x ∈ c_plus c → x ∉ c_minus c).
Proof.
  assert (diff_states moved_prev moved_next
          = [Change (py "p1") (Some (py "Aave")) (Some (py "data.ts"))
                    [py "Chainlink"] [py "Chainlink"] []]) as Hd
    by (vm_compute; reflexivity).
  split; [exact Hd|]. rewrite Hd. intros Hdisj.
  apply (Hdisj _ (list_elem_of_here _ _) (py "Chainlink")); simpl; left.
Qed.

(** C1, amended. For an id with a record on both sides, [plus] and [minus]
    have in common only strings that moved between the flat [oracles] list
    and the breakdown names: a string in both is an oracle of the new
    record only and a breakdown name of the old record only, or a breakdown
    name of the new record only and an oracle of the old record only. *)
Theorem plus_minus_common_only_moved (prev nxt : gmap pystr protocol) pid a b c :
  prev !! pid = Some a → nxt !! pid = Some b →
  c ∈ diff_states prev nxt → c_id c = pid →
  ∀ x, x ∈ c_plus c → x ∈ c_minus c →
    (x ∈ p_oracles b ∧ (x ∉ p_oracles a)
     ∧ x ∈ breakdown_names (p_oraclesBreakdown a)
     ∧ (x ∉ breakdown_names (p_oraclesBreakdown b)))
    ∨ (x ∈ breakdown_names (p_oraclesBreakdown b)
       ∧ (x ∉ breakdown_names (p_oraclesBreakdown a))
       ∧ x ∈ p_oracles a ∧ (x ∉ p_oracles b)).
Proof.
  intros Ha Hb Hc <- x Hplus Hminus.
  apply elem_of_diff_states in Hc as (a' & b' & Ha' & Hb' & Hc).
  assert (a' = a) as -> by congruence. assert (b' = b) as -> by congruence.
  rewrite (diff_record_Some _ _ _ _ Hc) in Hplus, Hminus. simpl in *.
  apply elem_of_record_plus in Hplus, Hminus.
  unfold newly_present in *. tauto.
Qed.

(** The amended C1 where Chainlink moved into the breakdown. *)
Lemma plus_minus_common_only_moved_chainlink :
  let a := Protocol (py "p1") (Some (py "Aave")) (Some (py "data.ts"))
                    [py "Chainlink"] [] in
  let b := Protocol (py "p1") (Some (py "Aave")) (Some (py "data.ts"))
                    [] [BItem (py "Chainlink") (py "Primary")] in
  let x := py "Chainlink" in
  (x ∈ p_oracles b ∧ (x ∉ p_oracles a)
   ∧ x ∈ breakdown_names (p_oraclesBreakdown a)
   ∧ (x ∉ breakdown_names (p_oraclesBreakdown b)))
  ∨ (x ∈ breakdown_names (p_oraclesBreakdown b)
     ∧ (x ∉ breakdown_names (p_oraclesBreakdown a))
     ∧ x ∈ p_oracles a ∧ (x ∉ p_oracles b)).
Proof.
  intros a b x.
  apply (plus_minus_common_only_moved moved_prev moved_next (py "p1") a b
           (Change (py "p1") (Some (py "Aave")) (Some (py "data.ts")) [x] [x] []));
    try (vm_compute; reflexivity).
  - replace (diff_states moved_prev moved_next)
      with [Change (py "p1") (Some (py "Aave")) (Some (py "data.ts")) [x] [x] []]
      by (vm_compute; reflexivity).
    left.
  - left.
  - left.
Defined.

(** C10. Breakdown entries whose name is blank (empty or whitespace only)
    are invisible to the diff, on either side and whatever their type:
    dropping them changes nothing, and so does stripping the names and
    types beforehand. What the diff does show, for an id with a record on
    both sides, is read off the stripped names and types: a string is in
    [plus] exactly when it is a new flat oracle or the stripped name of a
    non-blank entry of the new record that no non-blank entry of the old
    one has as its stripped name; [minus] is the same with the records
    exchanged; [types] holds [(n, t1, t2)] exactly when [n] is not empty
    and the last entries of stripped name [n] have the stripped types [t1]
    in the old record and [t2 ≠ t1] in the new one; and a record is
    emitted as soon as the stripped names or types differ in one of these
    ways. The normalizer does keep entries of blank name: [[{type: 'A'}]]
    gives the entry with an empty name and type [A], which the
    name-to-type map leaves out. With padded names and types, Chainlink
    is a type change, Pyth is no change, Redstone is new, and the entries
    of blank name, whose types differ, show nowhere. *)
Theorem diff_states_blank_names_and_strip :
  (∀ prev nxt : gmap pystr protocol,
     diff_states (drop_blank_names <$> prev) nxt = diff_states prev nxt
     ∧ diff_states prev (drop_blank_names <$> nxt) = diff_states prev nxt
     ∧ diff_states (strip_breakdown <$> prev) nxt = diff_states prev nxt
     ∧ diff_states prev (strip_breakdown <$> nxt) = diff_states prev nxt)
  ∧ (∀ (prev nxt : gmap pystr protocol) pid a b,
       prev !! pid = Some a → nxt !! pid = Some b →
       let la := p_oraclesBreakdown a in
       let lb := p_oraclesBreakdown b in
       (∀ c, c ∈ diff_states prev nxt → c_id c = pid →
          (∀ n, n ∈ c_plus c ↔
             (n ∈ p_oracles b ∧ (n ∉ p_oracles a))
             ∨ (names_stripped lb n ∧ ¬ names_stripped la n))
          ∧ (∀ n, n ∈ c_minus c ↔
               (n ∈ p_oracles a ∧ (n ∉ p_oracles b))
               ∨ (names_stripped la n ∧ ¬ names_stripped lb n))
          ∧ (∀ n t1 t2, (n, t1, t2) ∈ c_types c ↔
               n ≠ [] ∧ last_stripped_type la n = Some t1
               ∧ last_stripped_type lb n = Some t2 ∧ t1 ≠ t2))
       ∧ ((∃ n, (names_stripped lb n ∧ ¬ names_stripped la n)
                ∨ (names_stripped la n ∧ ¬ names_stripped lb n)
                ∨ (n ≠ [] ∧ ∃ t1 t2, last_stripped_type la n = Some t1
                                     ∧ last_stripped_type lb n = Some t2
                                     ∧ t1 ≠ t2)) →
          ∃ c, c ∈ diff_states prev nxt ∧ c_id c = pid))
  ∧ oracles_breakdown_items (array_of [object_of [pair_of "type" (string_lit "A")]])
    = [BItem [] (py "A")]
  ∧ breakdown_name_to_type [BItem [] (py "A")] = ∅
  ∧ diff_states padded_prev padded_next
    = [Change (py "p1") None None [py "Redstone"] []
              [(py "Chainlink", py "primary", py "secondary")]].
Proof.
  split; [|split; [|split_and!; vm_compute; reflexivity]].
  { intros prev nxt.
    assert (Hview : ∀ f : protocol → protocol,
      (∀ r, p_name (f r) = p_name r ∧ p_file (f r) = p_file r
            ∧ p_oracles (f r) = p_oracles r
            ∧ breakdown_name_to_type (p_oraclesBreakdown (f r))
              = breakdown_name_to_type (p_oraclesBreakdown r)) →
      ∀ p n : gmap pystr protocol,
        diff_states (f <$> p) n = diff_states p n
        ∧ diff_states p (f <$> n) = diff_states p n).
    { intros f Hf p n.
      assert (Hrec : ∀ pid a b,
        diff_record pid (f a) b = diff_record pid a b
        ∧ diff_record pid a (f b) = diff_record pid a b).
      { intros pid a b. unfold diff_record.
        destruct (Hf a) as (Hna & _ & Hoa & Hba).
        destruct (Hf b) as (Hnb & Hfb & Hob & Hbb).
        by rewrite Hna, Hoa, Hba, Hnb, Hfb, Hob, Hbb. }
      rewrite !diff_states_omap, !dom_fmap_L.
      split; apply list_omap_ext, Forall_Forall2_diag, Forall_forall;
        intros pid _; unfold diff_at; rewrite lookup_fmap.
      - destruct (p !! pid) as [a|]; simpl; [|done].
        destruct (n !! pid) as [b|]; simpl; [|done]. apply Hrec.
      - destruct (p !! pid) as [a|]; simpl; [|done].
        destruct (n !! pid) as [b|]; simpl; [|done]. apply Hrec. }
    pose proof (Hview drop_blank_names) as Hblank.
    pose proof (Hview strip_breakdown) as Hstrip.
    split_and!; (apply Hblank || apply Hstrip); intros r; simpl;
      split_and!; auto using breakdown_name_to_type_drop_blank,
                             breakdown_name_to_type_strip. }
  intros prev nxt pid a b Ha Hb la lb.
  assert (Hplus : ∀ a b n, n ∈ record_plus a b ↔
            (n ∈ p_oracles b ∧ (n ∉ p_oracles a))
            ∨ (names_stripped (p_oraclesBreakdown b) n
               ∧ ¬ names_stripped (p_oraclesBreakdown a) n)).
  { intros a0 b0 n. rewrite elem_of_record_plus. unfold newly_present.
    by rewrite !elem_of_breakdown_names. }
  assert (Htypes : ∀ n t1 t2, (n, t1, t2) ∈ record_types a b ↔
            n ≠ [] ∧ last_stripped_type la n = Some t1
            ∧ last_stripped_type lb n = Some t2 ∧ t1 ≠ t2).
  { intros n t1 t2. rewrite elem_of_record_types, !breakdown_name_to_type_Some.
    unfold la, lb. tauto. }
  split.
  - intros c Hc <-.
    apply elem_of_diff_states in Hc as (a' & b' & Ha' & Hb' & Hc).
    assert (a' = a) as -> by congruence. assert (b' = b) as -> by congruence.
    rewrite (diff_record_Some _ _ _ _ Hc). simpl.
    split_and!; auto.
  - intros (n & Hn).
    assert (is_Some (diff_record pid a b)) as [c Hc].
    { apply diff_record_is_Some.
      destruct Hn as [Hn|[Hn|(Hne & t1 & t2 & Hn)]].
      + left. intros Hnil.
        assert (n ∈ record_plus a b) as Hin by (apply Hplus; by right).
        rewrite Hnil in Hin. by inv Hin.
      + right; left. intros Hnil.
        assert (n ∈ record_plus b a) as Hin by (apply Hplus; by right).
        rewrite Hnil in Hin. by inv Hin.
      + right; right. intros Hnil.
        assert ((n, t1, t2) ∈ record_types a b) as Hin by (by apply Htypes).
        rewrite Hnil in Hin. by inv Hin. }
    exists c. pose proof (diff_record_Some _ _ _ _ Hc) as Hid.
    assert (c_id c = pid) as Hpid by (by rewrite Hid).
    split; [|done]. apply elem_of_diff_states. exists a, b. by rewrite Hpid.
Qed.

(** The general part of C10 on the padded entries. *)
Lemma diff_states_blank_names_and_strip_padded :
  let la := [BItem (py " Chainlink") (py "primary");
             BItem (py "Pyth ") (py " a ");
             BItem (py "  ") (py "x")] in
  let lb := [BItem (py "Chainlink ") (py " secondary ");
             BItem (py " Pyth") (py "a");
             BItem [] (py "y");
             BItem (py " Redstone ") (py "r")] in
  let a := Protocol (py "p1") None None [] la in
  let b := Protocol (py "p1") None None [] lb in
  (∀ c, c ∈ diff_states padded_prev padded_next → c_id c = py "p1" →
     (∀ n, n ∈ c_plus c ↔
        (n ∈ p_oracles b ∧ (n ∉ p_oracles a))
        ∨ (names_stripped lb n ∧ ¬ names_stripped la n))
     ∧ (∀ n, n ∈ c_minus c ↔
          (n ∈ p_oracles a ∧ (n ∉ p_oracles b))
          ∨ (names_stripped la n ∧ ¬ names_stripped lb n))
     ∧ (∀ n t1 t2, (n, t1, t2) ∈ c_types c ↔
          n ≠ [] ∧ last_stripped_type la n = Some t1
          ∧ last_stripped_type lb n = Some t2 ∧ t1 ≠ t2))
  ∧ ((∃ n, (names_stripped lb n ∧ ¬ names_stripped la n)
           ∨ (names_stripped la n ∧ ¬ names_stripped lb n)
           ∨ (n ≠ [] ∧ ∃ t1 t2, last_stripped_type la n = Some t1
                                ∧ last_stripped_type lb n = Some t2
                                ∧ t1 ≠ t2)) →
     ∃ c, c ∈ diff_states padded_prev padded_next ∧ c_id c = py "p1").
Proof.
  intros la lb a b.
  apply (proj1 (proj2 diff_states_blank_names_and_strip)
           padded_prev padded_next (py "p1") a b);
    vm_compute; reflexivity.
Defined.

(** ** Extraction: one object literal *)

Lemma last_value_snoc k kind pairs kv :
  last_value k kind (pairs ++ [kv])
  = if bool_decide (key_name kv.1 = Some k) && kind kv.2
    then Some kv.2 else last_value k kind pairs.
Proof.
  unfold last_value. rewrite omap_app. simpl.
  destruct (bool_decide _ && _); [by rewrite last_snoc|by rewrite app_nil_r].
Qed.

Lemma bool_decide_Some_eq (k c : pystr) :
  bool_decide (Some k = Some c) = bool_decide (k = c).
Proof. apply bool_decide_ext. split; congruence. Qed.

(** The turn of the loop of [object_to_protocol_min], the tests on the key
    written on the result of [key_name]. *)
Lemma protocol_pair_step_cases st kv :
  protocol_pair_step st kv
  = let k := key_name kv.1 in
    if bool_decide (k = Some (py "id")) && node_is_string kv.2 then
      Locals (Some (unquote (get_text kv.2))) (l_name_val st) (l_oracles st)
             (l_breakdown st)
    else if bool_decide (k = Some (py "name")) && node_is_string kv.2 then
      Locals (l_pid st) (unquote (get_text kv.2)) (l_oracles st) (l_breakdown st)
    else if bool_decide (k = Some (py "oracles")) && node_is_array kv.2 then
      Locals (l_pid st) (l_name_val st)
             (sorted_set (list_to_set (array_string_values kv.2))) (l_breakdown st)
    else if bool_decide (k = Some (py "oraclesBreakdown")) && node_is_array kv.2 then
      Locals (l_pid st) (l_name_val st) (l_oracles st)
             (oracles_breakdown_items kv.2)
    else st.
Proof.
  unfold protocol_pair_step. destruct (key_name kv.1) as [k|]; [|done].
  cbv zeta.
  rewrite !bool_decide_Some_eq.
  destruct k as [|c k]; [|done]. simpl negb. cbv iota.
  by rewrite !bool_decide_eq_false_2 by (by vm_compute).
Qed.

Lemma protocol_pair_step_pid st kv :
  l_pid (protocol_pair_step st kv)
  = if bool_decide (key_name kv.1 = Some (py "id")) && node_is_string kv.2
    then Some (unquote (get_text kv.2)) else l_pid st.
Proof. rewrite protocol_pair_step_cases. key_cases. Qed.

Lemma protocol_pair_step_oracles st kv :
  l_oracles (protocol_pair_step st kv)
  = if bool_decide (key_name kv.1 = Some (py "oracles")) && node_is_array kv.2
    then sorted_set (list_to_set (array_string_values kv.2)) else l_oracles st.
Proof. rewrite protocol_pair_step_cases. key_cases. Qed.

Lemma protocol_pair_step_breakdown st kv :
  l_breakdown (protocol_pair_step st kv)
  = if bool_decide (key_name kv.1 = Some (py "oraclesBreakdown"))
       && node_is_array kv.2
    then oracles_breakdown_items kv.2 else l_breakdown st.
Proof. rewrite protocol_pair_step_cases. key_cases. Qed.

Lemma fold_protocol_pid pairs :
  l_pid (foldl protocol_pair_step (Locals None [] [] []) pairs)
  = (λ v, unquote (get_text v)) <$> last_value (py "id") node_is_string pairs.
Proof.
  induction pairs as [|kv pairs IH] using rev_ind; [done|].
  rewrite foldl_app, last_value_snoc. simpl.
  rewrite protocol_pair_step_pid, IH. by destruct (bool_decide _ && _).
Qed.

Lemma fold_protocol_oracles pairs :
  l_oracles (foldl protocol_pair_step (Locals None [] [] []) pairs)
  = match last_value (py "oracles") node_is_array pairs with
    | Some arr => sorted_set (list_to_set (array_string_values arr))
    | None => []
    end.
Proof.
  induction pairs as [|kv pairs IH] using rev_ind; [done|].
  rewrite foldl_app, last_value_snoc. simpl.
  rewrite protocol_pair_step_oracles, IH. by destruct (bool_decide _ && _).
Qed.

Lemma fold_protocol_breakdown pairs :
  l_breakdown (foldl protocol_pair_step (Locals None [] [] []) pairs)
  = match last_value (py "oraclesBreakdown") node_is_array pairs with
    | Some arr => oracles_breakdown_items arr
    | None => []
    end.
Proof.
  induction pairs as [|kv pairs IH] using rev_ind; [done|].
  rewrite foldl_app, last_value_snoc. simpl.
  rewrite protocol_pair_step_breakdown, IH. by destruct (bool_decide _ && _).
Qed.

Lemma fold_breakdown_pair pairs :
  foldl breakdown_pair_step ([], []) pairs
  = (match last_value (py "name") node_is_string pairs with
     | Some v => unquote (get_text v)
     | None => []
     end,
     match last_value (py "type") node_is_string pairs with
     | Some v => unquote (get_text v)
     | None => []
     end).
Proof.
  induction pairs as [|kv pairs IH] using rev_ind; [done|].
  rewrite foldl_app, !last_value_snoc. simpl. rewrite IH.
  unfold breakdown_pair_step. simpl. key_cases.
Qed.

Lemma omap_filter_fmap {A B} (q : A → bool) (g : A → B) (P : B → Prop)
    `{∀ y, Decision (P y)} (f : A → option B) (l : list A) :
  (∀ x, f x = if q x then (if decide (P (g x)) then Some (g x) else None)
              else None) →
  omap f l = filter P (g <$> filter q l).
Proof.
  intros Hf. induction l as [|x l IH]; [done|].
  rewrite filter_cons. csimpl. rewrite Hf, IH.
  destruct (q x); simpl; [|done].
  rewrite filter_cons. by destruct (decide (P (g x))).
Qed.

(** The items of a breakdown array are its entries, sorted by
    [(name, type)]. *)
Lemma oracles_breakdown_items_entries arr :
  oracles_breakdown_items arr
  = sorted_key (K:=pystr * pystr) (λ x, (b_name x, b_type x))
               (breakdown_entries arr).
Proof.
  unfold oracles_breakdown_items, breakdown_entries. f_equal.
  apply omap_filter_fmap. intros el.
  destruct (node_is_object el); [|done].
  rewrite fold_breakdown_pair. unfold string_field, last_field. simpl.
  match goal with |- context [truthy ?n || truthy ?t] => generalize n, t end.
  intros [|c n] [|d t]; simpl; try case_decide; naive_solver.
Qed.

(** What [object_to_protocol_min] returns, field by field. *)
Lemma object_to_protocol_min_Some obj file_name r :
  object_to_protocol_min obj file_name = Some r →
  has_string_id obj = true
  ∧ p_id r = string_field (py "id") obj ∧ p_id r ≠ []
  ∧ p_file r = Some file_name
  ∧ p_oracles r
    = match last_field (py "oracles") node_is_array obj with
      | Some arr => sorted_set (list_to_set (array_string_values arr))
      | None => []
      end
  ∧ p_oraclesBreakdown r
    = match last_field (py "oraclesBreakdown") node_is_array obj with
      | Some arr => oracles_breakdown_items arr
      | None => []
      end.
Proof.
  unfold object_to_protocol_min, has_string_id, string_field, last_field.
  rewrite fold_protocol_pid, fold_protocol_oracles, fold_protocol_breakdown.
  destruct (last_value (py "id") _ _) as [v|]; simpl; [|done].
  destruct (unquote (get_text v)) eqn:Hid; simpl; [done|].
  intros [= <-]. simpl. done.
Qed.

(** An object literal with no string-valued [id] gives no record. *)
Lemma object_to_protocol_min_None obj file_name :
  has_string_id obj = false → object_to_protocol_min obj file_name = None.
Proof.
  intros Hno. destruct (object_to_protocol_min obj file_name) as [r|] eqn:Hr; [|done].
  apply object_to_protocol_min_Some in Hr as [Hid _]. congruence.
Qed.

(** ** Extraction: the walk over the tree *)

Lemma sum_tree_size_reverse (l : list node) :
  sum_list (tree_size <$> reverse l) = sum_list (tree_size <$> l).
Proof.
  by rewrite reverse_Permutation.
Qed.

(** The loop ends: with more fuel than there are nodes below the stack,
    [walk] returns. *)
Lemma walk_total fuel file_name stack by_id :
  sum_list (tree_size <$> stack) < fuel →
  is_Some (walk fuel file_name stack by_id).
Proof.
  revert stack by_id. induction fuel as [|fuel IH]; intros stack by_id Hlt; [lia|].
  destruct stack as [|n rest]; simpl; [by eauto|].
  apply IH. destruct n as [t nm f tx ch]. simpl in *.
  change (list_fmap node nat tree_size rest) with (tree_size <$> rest) in Hlt.
  rewrite fmap_app, sum_list_with_app, sum_tree_size_reverse. lia.
Qed.

Lemma parse_file_ts_total root file_name :
  is_Some (parse_file_ts root file_name).
Proof. apply walk_total. simpl. lia. Qed.

(** Every record the walk adds is what [object_to_protocol_min] makes of
    an object node below the stack, under that record's [id]. *)
Lemma walk_records fuel file_name stack by_id ds k r :
  walk fuel file_name stack by_id = Some ds → ds !! k = Some r →
  by_id !! k = Some r
  ∨ ∃ obj, obj ∈ stack ≫= subnodes ∧ node_is_object obj = true
           ∧ object_to_protocol_min obj file_name = Some r ∧ p_id r = k.
Proof.
  revert stack by_id. induction fuel as [|fuel IH]; intros stack by_id; [done|].
  destruct stack as [|n rest]; simpl.
  { intros [= ->]. auto. }
  intros Hw Hk. destruct (IH _ _ Hw Hk) as [Hv|(obj & Hin & Hobj)].
  - unfold visit in Hv. destruct (node_is_object n) eqn:Hn; [|by left].
    destruct (object_to_protocol_min n file_name) as [mini|] eqn:Hmini; [|by left].
    destruct (truthy (p_id mini)); [|by left].
    destruct (decide (p_id mini = k)) as [<-|Hne].
    + rewrite lookup_insert_eq in Hv. injection Hv as <-.
      right. exists n. split_and!; try done.
      destruct n; simpl. left.
    + rewrite lookup_insert_ne in Hv by done. by left.
  - right. exists obj. split; [|done].
    rewrite bind_app in Hin. apply elem_of_app in Hin as [Hin|Hin].
    + destruct n as [t nm f tx ch]. simpl in *. right. apply elem_of_app. left.
      apply list_elem_of_bind in Hin as (c & Hc & Hcin).
      apply list_elem_of_bind. exists c. split; [done|].
      by apply elem_of_reverse.
    + apply elem_of_app. by right.
Qed.

Lemma parse_file_ts_records root file_name ds k r :
  parse_file_ts root file_name = Some ds → ds !! k = Some r →
  ∃ obj, obj ∈ subnodes root ∧ node_is_object obj = true
         ∧ object_to_protocol_min obj file_name = Some r ∧ p_id r = k.
Proof.
  intros Hw Hk. destruct (walk_records _ _ _ _ _ _ _ Hw Hk) as [Hv|(obj & Hin & Hobj)].
  - by rewrite lookup_empty in Hv.
  - exists obj. split; [|done]. simpl in Hin. by rewrite app_nil_r in Hin.
Qed.

(** ** Claims about the extraction *)

(** C6. An object literal with no string-valued [id] field gives no
    record, whatever else it holds; and every record of the dataset
    extracted from a file is the record of an object literal of the tree
    that has a string-valued [id] field, stored under that id. *)
Theorem no_string_id_no_record :
  (∀ obj file_name,
     has_string_id obj = false → object_to_protocol_min obj file_name = None)
  ∧ (∀ root file_name,
       ∃ ds, parse_file_ts root file_name = Some ds
             ∧ ∀ k r, ds !! k = Some r →
                 ∃ obj, obj ∈ subnodes root ∧ node_is_object obj = true
                        ∧ has_string_id obj = true
                        ∧ object_to_protocol_min obj file_name = Some r
                        ∧ p_id r = k).
Proof.
  split; [exact object_to_protocol_min_None|].
  intros root file_name.
  destruct (parse_file_ts_total root file_name) as [ds Hds].
  exists ds. split; [done|]. intros k r Hk.
  destruct (parse_file_ts_records _ _ _ _ _ Hds Hk) as (obj & Hin & Hobj & Hr & Hid).
  exists obj. split_and!; try done.
  by apply object_to_protocol_min_Some in Hr as [? _].
Qed.

(** C6 on [{name: 'Foo', oracles: ['Chainlink']}] and on a literal whose
    [id] is a number: neither gives a record, and of the three literals of
    the file only the one with a string [id] is in the dataset. *)
Lemma no_string_id_no_record_literals :
  has_string_id literal_without_id = false
  ∧ object_to_protocol_min literal_without_id (py "data.ts") = None
  ∧ has_string_id literal_with_number_id = false
  ∧ object_to_protocol_min literal_with_number_id (py "data.ts") = None
  ∧ dom <$> parse_file_ts file_of_three (py "data.ts") = Some {[ py "7" ]}.
Proof.
  assert (has_string_id literal_without_id = false) as H1
    by (vm_compute; reflexivity).
  assert (has_string_id literal_with_number_id = false) as H2
    by (vm_compute; reflexivity).
  split; [exact H1|]. split.
  { exact (proj1 no_string_id_no_record literal_without_id (py "data.ts") H1). }
  split; [exact H2|]. split.
  { exact (proj1 no_string_id_no_record literal_with_number_id (py "data.ts") H2). }
  vm_compute. reflexivity.
Defined.

(** C7. Every record extracted from a file comes from an object literal
    of the tree, and is in canonical form with respect to it: [oracles]
    is strictly increasing (sorted, no duplicates) and holds exactly the
    string elements of the literal's [oracles] array; [oraclesBreakdown]
    is sorted by [(name, type)] and is a rearrangement of the entries of
    the literal's [oraclesBreakdown] array, one per element that is an
    object literal, name and type empty when missing or not strings, the
    entries with both empty left out. *)
Theorem extracted_records_canonical root file_name :
  ∃ ds, parse_file_ts root file_name = Some ds
    ∧ ∀ k r, ds !! k = Some r →
        ∃ obj, obj ∈ subnodes root
          ∧ object_to_protocol_min obj file_name = Some r
          ∧ StronglySorted lexico (p_oracles r)
          ∧ (∀ x, x ∈ p_oracles r ↔
               ∃ arr, last_field (py "oracles") node_is_array obj = Some arr
                      ∧ x ∈ array_string_values arr)
          ∧ StronglySorted (key_le (K:=pystr * pystr) (λ x, (b_name x, b_type x)))
                           (p_oraclesBreakdown r)
          ∧ p_oraclesBreakdown r ≡ₚ
              match last_field (py "oraclesBreakdown") node_is_array obj with
              | Some arr => breakdown_entries arr
              | None => []
              end.
Proof.
  destruct (parse_file_ts_total root file_name) as [ds Hds].
  exists ds. split; [done|]. intros k r Hk.
  destruct (parse_file_ts_records _ _ _ _ _ Hds Hk) as (obj & Hin & Hobj & Hr & Hid).
  exists obj. split; [done|]. split; [done|].
  apply object_to_protocol_min_Some in Hr as (_ & _ & _ & _ & -> & ->).
  split_and!.
  - destruct (last_field (py "oracles") _ _); [apply sorted_set_strict|constructor].
  - intros x. destruct (last_field (py "oracles") _ _) as [arr|].
    + rewrite elem_of_sorted_set, elem_of_list_to_set.
      split; [by eauto|by intros (? & [= <-] & ?)].
    + split; [by inversion 1|by intros (? & ? & ?)].
  - destruct (last_field (py "oraclesBreakdown") _ _); [|constructor].
    rewrite oracles_breakdown_items_entries. apply sorted_key_StronglySorted.
  - destruct (last_field (py "oraclesBreakdown") _ _); [|done].
    rewrite oracles_breakdown_items_entries. apply sorted_key_Permutation.
Qed.

(** C7 on a file: the record made of
    [{id: '7', name: 'Bar', oracles: ['b', 'a', 'b'],
      oraclesBreakdown: [{name: 'Z', type: 'P'}, {type: 'A'}, {}, 'x']}]. *)
Lemma extracted_records_canonical_file_of_three :
  (∃ ds, parse_file_ts file_of_three (py "data.ts") = Some ds
     ∧ ∀ k r, ds !! k = Some r →
         ∃ obj, obj ∈ subnodes file_of_three
           ∧ object_to_protocol_min obj (py "data.ts") = Some r
           ∧ StronglySorted lexico (p_oracles r)
           ∧ (∀ x, x ∈ p_oracles r ↔
                ∃ arr, last_field (py "oracles") node_is_array obj = Some arr
                       ∧ x ∈ array_string_values arr)
           ∧ StronglySorted (key_le (K:=pystr * pystr) (λ x, (b_name x, b_type x)))
                            (p_oraclesBreakdown r)
           ∧ p_oraclesBreakdown r ≡ₚ
               match last_field (py "oraclesBreakdown") node_is_array obj with
               | Some arr => breakdown_entries arr
               | None => []
               end)
  ∧ parse_file_ts file_of_three (py "data.ts")
    = Some {[ py "7" :=
                Protocol (py "7") (Some (py "Bar")) (Some (py "data.ts"))
                         [py "a"; py "b"]
                         [BItem [] (py "A"); BItem (py "Z") (py "P")] ]}.
Proof.
  split; [exact (extracted_records_canonical file_of_three (py "data.ts"))|].
  vm_compute. reflexivity.
Defined.

(** ** Building the dataset *)

(** One turn of the loop of [main] merges the records of the file over the
    dataset so far; a missing file has no records. *)
Lemma scan_file_union repo ds fname :
  scan_file repo (Some ds) fname = Some (file_records repo fname ∪ ds).
Proof.
  unfold scan_file, file_records. simpl. destruct (repo fname) as [root|].
  - destruct (parse_file_ts_total root fname) as [per ->]. done.
  - by rewrite (left_id_L ∅ (∪)).
Qed.

Lemma scan_files_snoc repo files fname :
  scan_files repo (files ++ [fname])
  = scan_file repo (scan_files repo files) fname.
Proof. unfold scan_files. by rewrite foldl_app. Qed.

Lemma scan_files_total repo files : is_Some (scan_files repo files).
Proof.
  induction files as [|fname files [ds IH]] using rev_ind; [by eexists|].
  rewrite scan_files_snoc, IH, scan_file_union. by eexists.
Qed.

Lemma scan_files_skip_missing repo files :
  scan_files repo (filter (λ f, is_Some (repo f)) files) = scan_files repo files.
Proof.
  induction files as [|fname files IH] using rev_ind; [done|].
  rewrite filter_app, filter_cons, filter_nil, (scan_files_snoc _ files), <-IH.
  case_decide as Hf.
  - by rewrite scan_files_snoc.
  - rewrite app_nil_r.
    destruct (scan_files_total repo (filter (λ f, is_Some (repo f)) files))
      as [ds Hds].
    rewrite Hds, scan_file_union. unfold file_records.
    destruct (repo fname); [by destruct Hf|]. by rewrite (left_id_L ∅ (∪)).
Qed.

(** The record under an id is the one of the last file of the list that
    has a record with that id. *)
Lemma scan_files_lookup repo files ds k r :
  scan_files repo files = Some ds →
  ds !! k = Some r ↔
  ∃ l1 fname l2, files = l1 ++ fname :: l2
    ∧ file_records repo fname !! k = Some r
    ∧ Forall (λ f, file_records repo f !! k = None) l2.
Proof.
  revert ds. induction files as [|g files IH] using rev_ind; intros ds Hds.
  - injection Hds as <-. rewrite lookup_empty. split; [done|].
    intros (l1 & f & l2 & Hl & _). by destruct l1.
  - rewrite scan_files_snoc in Hds.
    destruct (scan_files_total repo files) as [ds0 Hds0].
    rewrite Hds0, scan_file_union in Hds. injection Hds as <-.
    rewrite lookup_union_Some_raw, (IH ds0 Hds0). split.
    + intros [Hg|(Hg & l1 & f & l2 & -> & Hf & Hall)].
      * exists files, g, []. by split_and!.
      * exists l1, f, (l2 ++ [g]). rewrite <-app_assoc. split_and!; [done..|].
        apply Forall_app. split; [done|]. by constructor.
    + intros (l1 & f & l2 & Hl & Hf & Hall).
      destruct l2 as [|g' l2 _] using rev_ind.
      * apply app_inj_tail in Hl as [-> ->]. by left.
      * rewrite app_comm_cons, app_assoc in Hl.
        apply app_inj_tail in Hl as [-> ->].
        apply Forall_app in Hall as [Hall Hg]. right. split; [by inv Hg|].
        by exists l1, f, l2.
Qed.

(** C9. [main] always gets a dataset out of the loop over the target
    files; the record under an id is the one of the last target file that
    has a record with that id, so a later file replaces what an earlier
    one gave; and the dataset is the one the loop gives over the target
    files that exist, in the same order: a missing file is skipped and the
    files after it are still read. *)
Theorem main_dataset_last_file_wins (repo : pystr → option node) :
  ∃ ds, main_dataset repo = Some ds
    ∧ (∀ k r, ds !! k = Some r ↔
         ∃ l1 fname l2, TARGET_FILES = l1 ++ fname :: l2
           ∧ file_records repo fname !! k = Some r
           ∧ Forall (λ f, file_records repo f !! k = None) l2)
    ∧ (∀ fname, repo fname = None → file_records repo fname = ∅)
    ∧ main_dataset repo
      = scan_files repo (filter (λ f, is_Some (repo f)) TARGET_FILES).
Proof.
  unfold main_dataset.
  destruct (scan_files_total repo TARGET_FILES) as [ds Hds].
  exists ds. split_and!; [done| |..].
  - intros k r. by apply scan_files_lookup.
  - intros fname Hf. unfold file_records. by rewrite Hf.
  - by rewrite scan_files_skip_missing.
Qed.

(** C9 on a data folder where only [data.ts] and [data2.ts] exist and both
    have a record with id 7: the record of [data2.ts] is the one kept. *)
Lemma main_dataset_last_file_wins_two_files :
  (∃ ds, main_dataset two_files = Some ds
     ∧ (∀ k r, ds !! k = Some r ↔
          ∃ l1 fname l2, TARGET_FILES = l1 ++ fname :: l2
            ∧ file_records two_files fname !! k = Some r
            ∧ Forall (λ f, file_records two_files f !! k = None) l2)
     ∧ (∀ fname, two_files fname = None → file_records two_files fname = ∅)
     ∧ main_dataset two_files
       = scan_files two_files (filter (λ f, is_Some (two_files f)) TARGET_FILES))
  ∧ two_files (py "data1.ts") = None
  ∧ dom (file_records two_files (py "data.ts")) = {[ py "7" ]}
  ∧ main_dataset two_files
    = Some {[ py "7" :=
                Protocol (py "7") (Some (py "Baz")) (Some (py "data2.ts")) [] [] ]}.
Proof.
  split; [exact (main_dataset_last_file_wins two_files)|].
  split_and!; vm_compute; reflexivity.
Defined.

(** ** Claims about the snapshot *)

(** C8, as stated, fails: a snapshot file that holds the JSON document
    [null] exists, is decoded without error, and [load_snapshot] returns
    [None] for it. *)
Lemma load_snapshot_null_document :
  path_exists (Holds (Document JNull)) = true
  ∧ load_snapshot (Holds (Document JNull)) = Returns PyNone
  ∧ ¬ (∀ f, load_snapshot f = Returns PyNone ↔ f = Missing).
Proof.
  split; [done|]. split; [done|]. intros Hiff.
  by specialize (proj1 (Hiff (Holds (Document JNull))) eq_refl).
Qed.

Lemma to_python_None j : to_python j = PyNone ↔ j = JNull.
Proof. by destruct j. Qed.

(** C8, amended. [load_snapshot] returns [None] when no snapshot file
    exists; when one exists it returns [None] only if the file holds the
    JSON document [null]; a file that cannot be read or decoded makes it
    raise, the decoder's error included; and whatever it returns for a
    file is the whole document decoded. *)
Theorem load_snapshot_absent_or_whole (f : path_state) :
  (f = Missing → load_snapshot f = Returns PyNone)
  ∧ (load_snapshot f = Returns PyNone ↔ f = Missing ∨ f = Holds (Document JNull))
  ∧ (∀ e, f = Unreadable e → load_snapshot f = Raises e)
  ∧ (f = Holds Malformed → load_snapshot f = Raises JSONDecodeError)
  ∧ (∀ v, load_snapshot f = Returns v →
       f = Missing ∧ v = PyNone ∨ ∃ j, f = Holds (Document j) ∧ v = to_python j).
Proof.
  split_and!.
  - by intros ->.
  - destruct f as [|e|[|j]]; unfold load_snapshot; simpl.
    + split; [by left|done].
    + split; [done|by intros [?|?]].
    + split; [done|by intros [?|?]].
    + split.
      * intros [= Hj]. apply to_python_None in Hj as ->. by right.
      * by intros [?|[= ->]].
  - by intros e ->.
  - by intros ->.
  - intros v. destruct f as [|e|[|j]]; simpl; try done.
    + intros [= <-]. by left.
    + intros [= <-]. right. by exists j.
Qed.

(** The amended C8 on the three kinds of snapshot file. *)
Lemma load_snapshot_absent_or_whole_cases :
  load_snapshot Missing = Returns PyNone
  ∧ load_snapshot (Unreadable UnicodeDecodeError) = Raises UnicodeDecodeError
  ∧ load_snapshot (Holds Malformed) = Raises JSONDecodeError.
Proof.
  split; [exact (proj1 (load_snapshot_absent_or_whole Missing) eq_refl)|].
  split.
  - exact (proj1 (proj2 (proj2 (load_snapshot_absent_or_whole
             (Unreadable UnicodeDecodeError)))) UnicodeDecodeError eq_refl).
  - exact (proj1 (proj2 (proj2 (proj2 (load_snapshot_absent_or_whole
             (Holds Malformed))))) eq_refl).
Defined.

(** * Further properties *)

(** ** Quotes *)

(** X1. [unquote] takes one matching pair of quotes off a string, double
    or single, whatever is in between; a string that is not enclosed in
    such a pair comes back unchanged. *)
Theorem unquote_one_pair :
  (∀ q s, q = 34%N ∨ q = 39%N → unquote (q :: s ++ [q]) = s)
  ∧ (∀ s, (∀ q t, q = 34%N ∨ q = 39%N → s ≠ q :: t ++ [q]) → unquote s = s).
Proof.
  split.
  - intros q s Hq. unfold unquote.
    assert (last (q :: s ++ [q]) = Some q) as Hlast
      by (by rewrite app_comm_cons, last_snoc).
    rewrite Hlast. simpl head. rewrite length_cons, length_app. simpl length.
    rewrite bool_decide_true by lia.
    replace (S (length s + 1) - 1) with (S (length s)) by lia.
    assert (take (S (length s)) (q :: s ++ [q]) = q :: s) as ->.
    { simpl. by rewrite take_app_length. }
    by destruct Hq as [-> | ->].
  - intros s Hs. unfold unquote.
    destruct (bool_decide (2 ≤ length s) && _) eqn:Hc; [|done].
    apply andb_true_iff in Hc as [Hlen Hq]. apply bool_decide_eq_true in Hlen.
    assert (∃ q, (q = 34%N ∨ q = 39%N) ∧ head s = Some q ∧ last s = Some q)
      as (q & Hq' & Hhd & Hlast).
    { apply orb_true_iff in Hq as [Hq|Hq]; apply bool_decide_eq_true in Hq;
        destruct Hq; eauto. }
    destruct s as [|c s]; [done|]. injection Hhd as ->.
    destruct s as [|x s _] using rev_ind; [simpl in Hlen; lia|].
    rewrite app_comm_cons, last_snoc in Hlast. injection Hlast as ->.
    by destruct (Hs q s Hq').
Qed.

(** X1 on ['7'] and on the bare word [name]. *)
Lemma unquote_one_pair_examples :
  unquote (py "'7'") = py "7" ∧ unquote (py "name") = py "name".
Proof.
  split.
  - exact (proj1 unquote_one_pair 39%N (py "7") (or_intror eq_refl)).
  - apply (proj2 unquote_one_pair). intros q t [-> | ->] Heq; by vm_compute in Heq.
Defined.

(** ** One object literal, field by field *)

Lemma protocol_pair_step_name st kv :
  l_name_val (protocol_pair_step st kv)
  = if bool_decide (key_name kv.1 = Some (py "name")) && node_is_string kv.2
    then unquote (get_text kv.2) else l_name_val st.
Proof. rewrite protocol_pair_step_cases. key_cases. Qed.

Lemma fold_protocol_name pairs :
  l_name_val (foldl protocol_pair_step (Locals None [] [] []) pairs)
  = match last_value (py "name") node_is_string pairs with
    | Some v => unquote (get_text v)
    | None => []
    end.
Proof.
  induction pairs as [|kv pairs IH] using rev_ind; [done|].
  rewrite foldl_app, last_value_snoc. simpl.
  rewrite protocol_pair_step_name, IH. by destruct (bool_decide _ && _).
Qed.

(** X2. [object_to_protocol_min] gives a record exactly when the last
    string-valued [id] field of the literal is not the empty string; the
    record then takes each field from the last pair of the literal that
    has the right key and the right kind of value, whatever the order of
    the pairs, and the defaults (empty name, no oracles, no breakdown)
    where there is none. *)
Theorem object_to_protocol_min_fields obj file_name :
  object_to_protocol_min obj file_name
  = if truthy (string_field (py "id") obj) then
      Some (Protocol
              (string_field (py "id") obj)
              (Some (string_field (py "name") obj))
              (Some file_name)
              match last_field (py "oracles") node_is_array obj with
              | Some arr => sorted_set (list_to_set (array_string_values arr))
              | None => []
              end
              match last_field (py "oraclesBreakdown") node_is_array obj with
              | Some arr => oracles_breakdown_items arr
              | None => []
              end)
    else None.
Proof.
  unfold object_to_protocol_min, string_field, last_field.
  rewrite fold_protocol_pid, fold_protocol_name, fold_protocol_oracles,
    fold_protocol_breakdown.
  by destruct (last_value (py "id") _ _) as [v|].
Qed.

Example object_to_protocol_min_empty_id :
  object_to_protocol_min literal_with_empty_id (py "data.ts") = None.
Proof. vm_compute. reflexivity. Qed.

(** ** The walk, seen from the tree *)

Lemma visit_node_record file_name n by_id :
  visit file_name n by_id
  = match node_record file_name n with
    | Some r => <[p_id r := r]> by_id
    | None => by_id
    end.
Proof.
  unfold visit, node_record. destruct (node_is_object n); [|done].
  destruct (object_to_protocol_min n file_name) as [mini|]; [|done].
  by destruct (truthy (p_id mini)).
Qed.

Lemma bind_visit_order_reverse (l : list node) :
  reverse l ≫= visit_order = concat (reverse (visit_order <$> l)).
Proof.
  induction l as [|n l IH]; [done|].
  rewrite reverse_cons, bind_app, IH, fmap_cons, reverse_cons, concat_app.
  simpl. by rewrite !app_nil_r.
Qed.

(** With enough fuel the loop folds [visit] over the nodes below the
    stack, in visit order. *)
Lemma walk_fold fuel file_name stack by_id :
  sum_list (tree_size <$> stack) < fuel →
  walk fuel file_name stack by_id
  = Some (foldl (λ m n, visit file_name n m) by_id (stack ≫= visit_order)).
Proof.
  revert stack by_id. induction fuel as [|fuel IH]; intros stack by_id Hlt; [lia|].
  destruct stack as [|n rest]; [done|].
  destruct n as [t nm f tx ch]. simpl in Hlt.
  change (list_fmap node nat tree_size rest) with (tree_size <$> rest) in Hlt.
  simpl walk. rewrite IH.
  - f_equal. rewrite bind_cons, bind_app, bind_visit_order_reverse. simpl.
    by rewrite foldl_app.
  - simpl. rewrite fmap_app, sum_list_with_app, sum_tree_size_reverse. lia.
Qed.

Lemma visit_order_subnodes n : visit_order n ≡ₚ subnodes n.
Proof.
  revert n. fix IH 1. intros [t nm f tx ch]. simpl. f_equiv.
  rewrite reverse_Permutation.
  induction ch as [|c ch IHch]; [done|].
  simpl. by rewrite IHch, (IH c).
Qed.

(** The record under an id after a fold of [visit] is the one of the last
    node of the list that leaves a record with that id. *)
Lemma fold_visit_lookup file_name nodes k r :
  foldl (λ m n, visit file_name n m) ∅ nodes !! k = Some r ↔
  ∃ l1 obj l2, nodes = l1 ++ obj :: l2
    ∧ node_record file_name obj = Some r ∧ p_id r = k
    ∧ Forall (λ n, ∀ r', node_record file_name n = Some r' → p_id r' ≠ k) l2.
Proof.
  induction nodes as [|n nodes IH] using rev_ind.
  - simpl. rewrite lookup_empty. split; [done|].
    intros (l1 & obj & l2 & Hl & _). by destruct l1.
  - rewrite foldl_app. simpl. rewrite visit_node_record.
    assert (Hsplit : ∀ P : list node → node → list node → Prop,
      (∃ l1 obj l2, nodes ++ [n] = l1 ++ obj :: l2 ∧ P l1 obj l2) ↔
      P nodes n [] ∨ ∃ l1 obj l2, nodes = l1 ++ obj :: l2 ∧ P l1 obj (l2 ++ [n])).
    { intros P. split.
      - intros (l1 & obj & l2 & Hl & HP).
        destruct l2 as [|x l2 _] using rev_ind.
        + apply app_inj_tail in Hl as [-> ->]. by left.
        + rewrite app_comm_cons, app_assoc in Hl.
          apply app_inj_tail in Hl as [-> ->]. right. eauto.
      - intros [HP|(l1 & obj & l2 & -> & HP)].
        + by exists nodes, n, [].
        + exists l1, obj, (l2 ++ [n]). by rewrite <-app_assoc. }
    rewrite (Hsplit (λ _ obj l2, node_record file_name obj = Some r ∧ p_id r = k
      ∧ Forall (λ n, ∀ r', node_record file_name n = Some r' → p_id r' ≠ k) l2)).
    setoid_rewrite Forall_app. setoid_rewrite Forall_singleton.
    destruct (node_record file_name n) as [rn|] eqn:Hn.
    + destruct (decide (p_id rn = k)) as [<-|Hne].
      * rewrite lookup_insert_eq. split.
        -- intros [= <-]. left. split_and!; [done..|constructor].
        -- intros [(Hr & _)|(l1 & obj & l2 & _ & _ & _ & _ & Hlast)]; [done|].
           by destruct (Hlast rn eq_refl).
      * rewrite lookup_insert_ne by done. rewrite IH. split.
        -- intros (l1 & obj & l2 & -> & Hr & Hk & Hall). right.
           exists l1, obj, l2. split_and!; try done. by intros r' [= <-].
        -- intros [([= ->] & Hk & _)|(l1 & obj & l2 & -> & Hr & Hk & Hall & _)];
             [done|]. by exists l1, obj, l2.
    + rewrite IH. split.
      * intros (l1 & obj & l2 & -> & Hr & Hk & Hall). right.
        exists l1, obj, l2. by split_and!.
      * intros [(? & _)|(l1 & obj & l2 & -> & Hr & Hk & Hall & _)]; [done|].
        by exists l1, obj, l2.
Qed.

(** X3. [parse_file_ts] always returns, and what it returns is the fold of
    the loop body over the nodes of the tree in visit order (a node, then
    the subtrees of its children from the last child to the first); that
    order holds every node of the tree exactly once. *)
Theorem parse_file_ts_visits_each_node_once root file_name :
  parse_file_ts root file_name
  = Some (foldl (λ m n, visit file_name n m) ∅ (visit_order root))
  ∧ visit_order root ≡ₚ subnodes root.
Proof.
  split; [|apply visit_order_subnodes].
  unfold parse_file_ts. rewrite walk_fold by (simpl; lia).
  simpl. by rewrite app_nil_r.
Qed.

(** X4. When several object literals of a file give a record with the
    same id, the one visited last is kept: the record under an id is that
    of the last node, in visit order, that leaves a record with the id.
    (In [parse_file_ts_twins] below, two literals side by side: the first
    in the source is visited last and is the one kept.) *)
Theorem parse_file_ts_last_visited_wins root file_name k r :
  (∃ ds, parse_file_ts root file_name = Some ds ∧ ds !! k = Some r) ↔
  ∃ l1 obj l2, visit_order root = l1 ++ obj :: l2
    ∧ node_record file_name obj = Some r ∧ p_id r = k
    ∧ Forall (λ n, ∀ r', node_record file_name n = Some r' → p_id r' ≠ k) l2.
Proof.
  rewrite <-fold_visit_lookup.
  unfold parse_file_ts. rewrite walk_fold by (simpl; lia).
  simpl. rewrite app_nil_r. split.
  - by intros (ds & [= <-] & Hk).
  - intros Hk. eauto.
Qed.

(** X4 on the file [[{id: '7', name: 'A'}, {id: '7', name: 'B'}];]: the
    record kept is the one named [A]. *)
Lemma parse_file_ts_twins :
  parse_file_ts file_of_twins (py "data.ts")
  = Some {[ py "7" := Protocol (py "7") (Some (py "A")) (Some (py "data.ts")) [] [] ]}.
Proof. vm_compute. reflexivity. Qed.

(** X5. The ids of the dataset of a file are exactly the ids of the
    records its object literals give, at any depth: a literal nested in a
    recognized one is not passed over, and no id is lost. *)
Theorem parse_file_ts_ids root file_name k :
  (∃ ds, parse_file_ts root file_name = Some ds ∧ k ∈ dom ds) ↔
  ∃ obj r, obj ∈ subnodes root ∧ node_record file_name obj = Some r ∧ p_id r = k.
Proof.
  unfold parse_file_ts. rewrite walk_fold by (simpl; lia).
  simpl. rewrite app_nil_r. split.
  - intros (ds & [= <-] & Hk). apply elem_of_dom in Hk as [r Hr].
    apply fold_visit_lookup in Hr as (l1 & obj & l2 & Hl & Hr & Hid & _).
    exists obj, r. split_and!; try done.
    rewrite <-visit_order_subnodes, Hl. set_solver.
  - intros (obj & r & Hin & Hr & Hid). eexists. split; [done|].
    rewrite <-visit_order_subnodes in Hin. revert Hin.
    generalize (visit_order root). intros nodes Hin.
    induction nodes as [|n nodes IH] using rev_ind; [by inv Hin|].
    rewrite foldl_app. simpl. rewrite visit_node_record.
    apply elem_of_app in Hin as [Hin|Hin%list_elem_of_singleton].
    + destruct (node_record file_name n) as [rn|]; [|by apply IH].
      rewrite dom_insert. apply elem_of_union. right. by apply IH.
    + subst n. rewrite Hr, dom_insert, Hid. set_solver.
Qed.

(** ** The change-set as a whole *)

Lemma record_plus_nil a b : record_plus a b = [] ↔ ∀ x, ¬ newly_present a b x.
Proof.
  split.
  - intros Hnil x Hx. apply elem_of_record_plus in Hx. rewrite Hnil in Hx. by inv Hx.
  - intros Hno. destruct (record_plus a b) as [|x l] eqn:Hp; [done|].
    destruct (Hno x). apply elem_of_record_plus. rewrite Hp. left.
Qed.

Lemma record_types_nil a b :
  record_types a b = [] ↔
  ∀ n t1 t2, breakdown_name_to_type (p_oraclesBreakdown a) !! n = Some t1 →
             breakdown_name_to_type (p_oraclesBreakdown b) !! n = Some t2 →
             t1 = t2.
Proof.
  split.
  - intros Hnil n t1 t2 H1 H2. destruct (decide (t1 = t2)) as [|Hne]; [done|].
    assert ((n, t1, t2) ∈ record_types a b) as Hin
      by (by apply elem_of_record_types).
    rewrite Hnil in Hin. by inv Hin.
  - intros Hsame. destruct (record_types a b) as [|[[n t1] t2] l] eqn:Ht; [done|].
    assert ((n, t1, t2) ∈ record_types a b) as Hin by (rewrite Ht; left).
    apply elem_of_record_types in Hin as (H1 & H2 & Hne).
    by destruct Hne, (Hsame n t1 t2).
Qed.

(** No record is emitted for two records exactly when they have the same
    oracles, as sets, and the same name-to-type map. *)
Lemma diff_record_None_iff pid a b :
  diff_record pid a b = None ↔
  (∀ x, x ∈ p_oracles a ↔ x ∈ p_oracles b)
  ∧ breakdown_name_to_type (p_oraclesBreakdown a)
    = breakdown_name_to_type (p_oraclesBreakdown b).
Proof.
  rewrite eq_None_not_Some, diff_record_is_Some.
  assert (∀ P Q R : Prop, ¬ (¬ P ∨ ¬ Q ∨ ¬ R) ↔ ¬ ¬ P ∧ ¬ ¬ Q ∧ ¬ ¬ R) as -> by tauto.
  assert (∀ {A} (l : list A), ¬ l ≠ [] ↔ l = []) as Hnn
    by (intros A l; destruct (decide (l = [])); tauto).
  rewrite !Hnn, !record_plus_nil, record_types_nil. unfold newly_present.
  setoid_rewrite <-dom_breakdown_name_to_type. split.
  - intros (Hab & Hba & Hty). split.
    + intros x. specialize (Hab x). specialize (Hba x).
      destruct (decide (x ∈ p_oracles a)), (decide (x ∈ p_oracles b)); tauto.
    + apply map_eq. intros n.
      specialize (Hab n). specialize (Hba n). specialize (Hty n).
      rewrite !elem_of_dom in Hab, Hba.
      destruct (breakdown_name_to_type (p_oraclesBreakdown a) !! n) as [t1|] eqn:H1,
               (breakdown_name_to_type (p_oraclesBreakdown b) !! n) as [t2|] eqn:H2;
        try done.
      * f_equal. by apply Hty.
      * destruct Hba. right. split; [by eauto|by intros [? ?]].
      * destruct Hab. right. split; [by eauto|by intros [? ?]].
  - intros [Hor Hbt]. rewrite Hbt. split_and!.
    + intros x. specialize (Hor x). tauto.
    + intros x. specialize (Hor x). tauto.
    + intros n t1 t2 H1 H2. congruence.
Qed.

(** X7. The change-set is empty exactly when every id with a record on
    both sides has the same oracles on both sides, as sets, and the same
    name-to-type map: order and repetition in [oracles], the name and the
    file of a record, and records present on one side only never show. *)
Theorem diff_states_nil_iff (prev nxt : gmap pystr protocol) :
  diff_states prev nxt = [] ↔
  ∀ pid a b, prev !! pid = Some a → nxt !! pid = Some b →
    (∀ x, x ∈ p_oracles a ↔ x ∈ p_oracles b)
    ∧ breakdown_name_to_type (p_oraclesBreakdown a)
      = breakdown_name_to_type (p_oraclesBreakdown b).
Proof.
  split.
  - intros Hnil pid a b Ha Hb. apply (diff_record_None_iff pid).
    destruct (diff_record pid a b) as [c|] eqn:Hc; [|done].
    assert (c ∈ diff_states prev nxt) as Hin.
    { apply elem_of_diff_states. exists a, b.
      assert (c_id c = pid) as -> by (by rewrite (diff_record_Some _ _ _ _ Hc)).
      done. }
    rewrite Hnil in Hin. by inv Hin.
  - intros Hsame. destruct (diff_states prev nxt) as [|c l] eqn:Hd; [done|].
    assert (c ∈ diff_states prev nxt) as Hin by (rewrite Hd; left).
    apply elem_of_diff_states in Hin as (a & b & Ha & Hb & Hc).
    specialize (Hsame _ _ _ Ha Hb).
    apply (diff_record_None_iff (c_id c)) in Hsame. congruence.
Qed.

(** X8. The change records come in strictly increasing order of their
    ids, so there is at most one for an id, and none of them is empty:
    each has an addition, a removal or a type change. *)
Theorem diff_states_sorted_nonempty (prev nxt : gmap pystr protocol) :
  StronglySorted lexico (c_id <$> diff_states prev nxt)
  ∧ Forall (λ c, c_plus c ≠ [] ∨ c_minus c ≠ [] ∨ c_types c ≠ [])
           (diff_states prev nxt).
Proof.
  split.
  - rewrite diff_states_omap.
    assert (Hid : ∀ pid c, diff_at prev nxt pid = Some c → c_id c = pid).
    { intros pid c. unfold diff_at.
      destruct (prev !! pid) as [a|]; simpl; [|done].
      destruct (nxt !! pid) as [b|]; simpl; [|done].
      intros Hc. by rewrite (diff_record_Some _ _ _ _ Hc). }
    generalize (sorted_set_strict (dom prev ∪ dom nxt)).
    induction 1 as [|pid ids Hs IH Hall]; [constructor|].
    csimpl. destruct (diff_at prev nxt pid) as [c|] eqn:Hc; [|done].
    csimpl. rewrite (Hid _ _ Hc). constructor; [done|].
    rewrite Forall_forall in Hall |- *. intros k Hk.
    apply list_elem_of_fmap in Hk as (c' & -> & Hc').
    apply list_elem_of_omap in Hc' as (pid' & Hpid' & Hc').
    rewrite (Hid _ _ Hc'). by apply Hall.
  - apply Forall_forall. intros c Hc.
    apply elem_of_diff_states in Hc as (a & b & _ & _ & Hc).
    assert (is_Some (diff_record (c_id c) a b)) as Hs by eauto.
    apply diff_record_is_Some in Hs.
    by rewrite (diff_record_Some _ _ _ _ Hc).
Qed.

Lemma record_types_swap a b :
  record_types b a = (λ t, (t.1.1, t.2, t.1.2)) <$> record_types a b.
Proof.
  unfold record_types. cbv zeta. rewrite <-list_fmap_compose.
  rewrite (comm_L (∩) (dom (breakdown_name_to_type (p_oraclesBreakdown b)))).
  induction (sorted_set _) as [|n l IH]; [done|].
  rewrite !filter_cons. repeat case_decide; try congruence; csimpl; by rewrite IH.
Qed.

(** X9. Exchanging the two datasets exchanges [plus] and [minus] in every
    change record and turns each type change round; the ids reported are
    the same. *)
Theorem diff_states_swap (prev nxt : gmap pystr protocol) :
  (λ c, (c_id c, c_plus c, c_minus c, c_types c)) <$> diff_states nxt prev
  = (λ c, (c_id c, c_minus c, c_plus c, (λ t, (t.1.1, t.2, t.1.2)) <$> c_types c))
      <$> diff_states prev nxt.
Proof.
  rewrite !diff_states_omap, !list_fmap_omap, (comm_L (∪) (dom nxt)).
  apply list_omap_ext, Forall_Forall2_diag, Forall_forall. intros pid _.
  unfold diff_at.
  destruct (prev !! pid) as [a|], (nxt !! pid) as [b|]; simpl; try done.
  rewrite !diff_record_unfold, record_types_swap.
  destruct (record_plus a b), (record_plus b a), (record_types a b); done.
Qed.

(** ** The report *)

Lemma angle_brackets_app l1 l2 :
  angle_brackets (l1 ++ l2) = angle_brackets l1 ++ angle_brackets l2.
Proof. apply filter_app. Qed.

Lemma angle_brackets_plain l : Forall plain_char l → angle_brackets l = [].
Proof.
  induction 1 as [|c l (? & ? & _) _ IH]; [done|].
  unfold angle_brackets in *. rewrite filter_cons.
  rewrite decide_False by (by intros [?|?]). done.
Qed.

Lemma escape_plain s : Forall plain_char (escape s).
Proof.
  induction s as [|c s IH]; [constructor|].
  unfold escape in *. rewrite bind_cons. apply Forall_app. split; [|done].
  unfold escape_char.
  repeat (case_match; [apply (bool_decide_unpack _); by vm_compute|]).
  constructor; [|constructor]. unfold plain_char.
  repeat match goal with H : (_ =? _)%N = false |- _ => apply N.eqb_neq in H end.
  done.
Qed.

Lemma pretty_N_go_plain x s :
  Forall plain_char (py s) → Forall plain_char (py (pretty_N_go x s)).
Proof.
  revert s. induction (N.lt_wf_0 x) as [x _ IH]. intros s Hs.
  destruct (decide (0 < x)%N) as [Hx|Hx].
  - rewrite pretty_N_go_step by done. apply IH.
    { by apply N.div_lt. }
    change (py (String ?c ?s)) with (Ascii.N_of_ascii c :: py s).
    constructor; [|done].
    unfold pretty_N_char. repeat case_match; by vm_compute.
  - assert (x = 0%N) as -> by lia. by rewrite pretty_N_go_0.
Qed.

Lemma pretty_nat_plain (n : nat) : Forall plain_char (py (pretty n)).
Proof.
  unfold pretty, pretty_nat, pretty, pretty_N. case_decide.
  - apply (bool_decide_unpack _). by vm_compute.
  - apply pretty_N_go_plain. constructor.
Qed.

(** X10. Whatever the names, ids, files, oracles and types of the change
    records hold, every line of the report has the angle brackets of its
    template and no others (none, those of one tag pair, or those of three
    tag pairs) and has no quote character: the text of a field cannot open
    or close a tag. *)
Theorem print_human_markup_safe (changes : list change) :
  Forall (λ line,
            (angle_brackets line = []
             ∨ angle_brackets line = py "<><>"
             ∨ angle_brackets line = py "<><><><><><>")
            ∧ Forall (λ c, c ≠ 34%N ∧ c ≠ 39%N) line)
         (human_lines changes).
Proof.
  assert (Hq : ∀ l, Forall plain_char l → Forall (λ c, c ≠ 34%N ∧ c ≠ 39%N) l).
  { intros l Hl. eapply Forall_impl; [done|]. unfold plain_char. tauto. }
  unfold human_lines. apply Forall_app. split.
  - apply Forall_forall. intros line Hline.
    apply list_elem_of_bind in Hline as (c & Hline & _).
    unfold change_lines in Hline. cbv zeta in Hline.
    rewrite !elem_of_app, !list_elem_of_fmap, !list_elem_of_singleton in Hline.
    destruct Hline as [->|[(n & -> & _)|[(n & -> & _)|[(t & -> & _)| ->]]]].
    + split.
      * right; right. rewrite !angle_brackets_app.
        rewrite !(angle_brackets_plain (escape _)) by apply escape_plain.
        by vm_compute.
      * rewrite !Forall_app. split_and!; try (apply Hq, escape_plain);
          apply (bool_decide_unpack _); by vm_compute.
    + split.
      * right; left. rewrite !angle_brackets_app.
        rewrite !(angle_brackets_plain (escape _)) by apply escape_plain.
        by vm_compute.
      * rewrite !Forall_app. split_and!; try (apply Hq, escape_plain);
          apply (bool_decide_unpack _); by vm_compute.
    + split.
      * right; left. rewrite !angle_brackets_app.
        rewrite !(angle_brackets_plain (escape _)) by apply escape_plain.
        by vm_compute.
      * rewrite !Forall_app. split_and!; try (apply Hq, escape_plain);
          apply (bool_decide_unpack _); by vm_compute.
    + split.
      * right; right. rewrite !angle_brackets_app.
        rewrite !(angle_brackets_plain (escape _)) by apply escape_plain.
        by vm_compute.
      * rewrite !Forall_app. split_and!; try (apply Hq, escape_plain);
          apply (bool_decide_unpack _); by vm_compute.
    + split; [by left|constructor].
  - constructor; [|constructor]. split.
    + left. rewrite !angle_brackets_app.
      rewrite (angle_brackets_plain (py (pretty _))) by apply pretty_nat_plain.
      by vm_compute.
    + rewrite !Forall_app. split_and!; try (apply Hq, pretty_nat_plain);
        apply (bool_decide_unpack _); by vm_compute.
Qed.

(** ** Documents and values *)

Lemma foldl_insert_list_to_map {A B} (g : A → B) (l : list (pystr * A))
    (acc : gmap pystr B) :
  NoDup l.*1 →
  foldl (λ d kv, <[kv.1 := g kv.2]> d) acc l
  = list_to_map (prod_map id g <$> l) ∪ acc.
Proof.
  revert acc. induction l as [|[k x] l IH]; intros acc Hnd.
  - simpl. by rewrite (left_id_L ∅ (∪)).
  - rewrite fmap_cons in Hnd. apply NoDup_cons in Hnd as [Hk Hnd].
    rewrite fmap_cons. cbn [foldl list_to_map foldr prod_map fst snd id uncurry].
    rewrite IH by done. rewrite <-insert_union_l. symmetry.
    apply insert_union_r.
    apply not_elem_of_list_to_map. rewrite <-list_fmap_compose.
    by rewrite (list_fmap_ext (fst ∘ prod_map id g) fst l (λ _ _ _, eq_refl)).
Qed.

Lemma foldl_insert_map_to_list {A B} (g : A → B) (m : gmap pystr A) :
  foldl (λ d kv, <[kv.1 := g kv.2]> d) ∅ (map_to_list m) = g <$> m.
Proof.
  rewrite foldl_insert_list_to_map by apply NoDup_fst_map_to_list.
  by rewrite (right_id_L ∅ (∪)), list_to_map_fmap, list_to_map_to_list.
Qed.

Lemma pysize_elem (l : list pyvalue) v :
  v ∈ l → pysize v < pysize (PyList l).
Proof.
  simpl. induction 1 as [v l|v w l _ IH]; rewrite fmap_cons; simpl; lia.
Qed.

Lemma pysize_lookup (d : gmap pystr pyvalue) k v :
  d !! k = Some v → pysize v < pysize (PyDict d).
Proof.
  intros Hk. simpl.
  rewrite (map_fold_delete_L _ _ k v) by (done || intros; lia). lia.
Qed.

(** Decoding what [json.dumps] made of a value gives the value back. *)
Lemma to_python_json_dumps v : to_python (json_dumps v) = v.
Proof.
  remember (pysize v) as n eqn:Hn. revert v Hn.
  induction n as [n IH] using lt_wf_ind. intros v ->.
  destruct v as [|[]|z|x|s|l|d]; try done.
  - simpl. f_equal. rewrite <-list_fmap_compose.
    rewrite <-(list_fmap_id l) at 2. apply list_fmap_ext.
    intros i v Hv. apply (IH (pysize v)); [|done].
    apply pysize_elem. by eapply list_elem_of_lookup_2.
  - simpl. f_equal. rewrite foldl_insert_map_to_list, <-map_fmap_compose.
    rewrite <-(map_fmap_id d) at 2. apply map_fmap_ext.
    intros k v Hv. apply (IH (pysize v)); [|done]. by eapply pysize_lookup.
Qed.

Lemma bitem_view_py_of_bitem x : bitem_view (py_of_bitem x) = Some x.
Proof. by destruct x. Qed.

Lemma protocol_view_py_of_protocol r : protocol_view (py_of_protocol r) = Some r.
Proof.
  destruct r as [id [name|] [file|] os bd]; unfold protocol_view, py_of_protocol;
    simpl with_key.
  all: repeat match goal with
         | |- context [?m !! py ?k] =>
             let v := fresh "v" in let Hv := fresh "Hv" in
             destruct (m !! py k) as [v|] eqn:Hv;
             vm_compute in Hv; simplify_eq
         end.
  all: simpl; rewrite (mapM_fmap_Some as_str PyStr) by done; simpl.
  all: by rewrite (mapM_fmap_Some bitem_view py_of_bitem)
         by apply bitem_view_py_of_bitem.
Qed.

Lemma dataset_view_py_of_dataset (state : gmap pystr protocol) :
  dataset_view (py_of_dataset state) = Some state.
Proof.
  unfold dataset_view, py_of_dataset. rewrite bool_decide_true.
  - f_equal. apply map_eq. intros k.
    rewrite lookup_omap, lookup_fmap.
    destruct (state !! k) as [r|]; simpl; [|done].
    apply protocol_view_py_of_protocol.
  - intros k v Hv. apply lookup_fmap_Some in Hv as (r & <- & _).
    rewrite protocol_view_py_of_protocol. by eexists.
Qed.

Lemma load_snapshot_save_snapshot (state : gmap pystr protocol) :
  load_snapshot (save_snapshot state) = Returns (py_of_dataset state).
Proof.
  unfold save_snapshot.
  change (load_snapshot (Holds (Document (json_dumps (py_of_dataset state)))))
    with (Returns (to_python (json_dumps (py_of_dataset state)))).
  by rewrite to_python_json_dumps.
Qed.

(** X11. What [save_snapshot] writes, [load_snapshot] reads back as the
    dataset that was saved: the value loaded is never the absent sentinel,
    also for the empty dataset, and it is the saved dataset record for
    record. *)
Theorem load_after_save (state : gmap pystr protocol) :
  ∃ v, load_snapshot (save_snapshot state) = Returns v
       ∧ v ≠ PyNone
       ∧ dataset_view v = Some state.
Proof.
  exists (py_of_dataset state). split_and!.
  - apply load_snapshot_save_snapshot.
  - done.
  - apply dataset_view_py_of_dataset.
Qed.

(** ** The command *)

Lemma diff_states_same_dataset (D : gmap pystr protocol) : diff_states D D = [].
Proof.
  destruct (diff_states D D) as [|c l] eqn:Hd; [done|].
  assert (c ∈ diff_states D D) as Hc by (rewrite Hd; left).
  apply elem_of_diff_states in Hc as (a & b & Ha & Hb & Hc).
  assert (b = a) as -> by congruence.
  by rewrite diff_record_same in Hc.
Qed.

Lemma main_dataset_total repo : is_Some (main_dataset repo).
Proof. apply scan_files_total. Qed.

(** A run that goes on to a snapshot written by [save_snapshot]. *)
Lemma main_on_saved args repo D0 ds :
  main_dataset repo = Some ds → no_dump args →
  main args repo (save_snapshot D0)
  = Some (Run ((if arg_debug_ast args then debug_lines repo else [])
               ++ [report (arg_out args) (diff_states D0 ds)])
              (if arg_dry_run args then save_snapshot D0 else save_snapshot ds)
              None).
Proof.
  intros Hds [Hall Hid]. unfold main. rewrite Hds.
  cbn [mbind option_bind]. cbv zeta.
  rewrite Hall, Hid, load_snapshot_save_snapshot.
  unfold py_of_dataset at 1. fold (py_of_dataset D0).
  by rewrite dataset_view_py_of_dataset.
Qed.

(** X12. When the snapshot is one that [save_snapshot] wrote for a
    dataset, a run without dump flags reports, in the format asked for,
    the diff of that dataset against the one built from the target files,
    and ends without an exception; it then holds the new dataset in the
    snapshot, unless it is a dry run, which leaves the snapshot alone. *)
Theorem main_diffs_against_saved args repo D0 :
  no_dump args →
  ∃ ds, main_dataset repo = Some ds
    ∧ main args repo (save_snapshot D0)
      = Some (Run ((if arg_debug_ast args then debug_lines repo else [])
                   ++ [report (arg_out args) (diff_states D0 ds)])
                  (if arg_dry_run args then save_snapshot D0 else save_snapshot ds)
                  None).
Proof.
  intros Hno. destruct (main_dataset_total repo) as [ds Hds].
  exists ds. split; [done|]. by apply main_on_saved.
Qed.

(** X12 for the plain command line on the data folder [two_files], with
    the dataset of scenario A as the snapshot. *)
Lemma main_diffs_against_saved_two_files :
  ∃ ds, main_dataset two_files = Some ds
    ∧ main plain_args two_files (save_snapshot scenario_a_prev)
      = Some (Run ([] ++ [report Human (diff_states scenario_a_prev ds)])
                  (save_snapshot ds) None).
Proof.
  exact (main_diffs_against_saved plain_args two_files scenario_a_prev
           (conj eq_refl eq_refl)).
Defined.



(** A run that is neither a dry run nor a dump and ends without an
    exception leaves the dataset it built in the snapshot. *)
Lemma main_plain_run_saves args repo snapshot_file r :
  main args repo snapshot_file = Some r →
  raised r = None → arg_dry_run args = false → no_dump args →
  ∃ ds, main_dataset repo = Some ds ∧ snapshot_after r = save_snapshot ds.
Proof.
  unfold main. destruct (main_dataset repo) as [ds|]; [|done].
  cbn [mbind option_bind]. cbv zeta.
  intros Hr Hok Hdry [Hall Hid]. exists ds. split; [done|].
  rewrite Hall, Hid, Hdry in Hr.
  destruct (load_snapshot snapshot_file) as [prev|e].
  - destruct prev; try (destruct (dataset_view _); simpl in Hr; [|done]);
      by injection Hr as <-.
  - injection Hr as <-. done.
Qed.

(** X14. After a run that was neither a dry run nor a dump and ended
    without an exception, a second run on unchanged target files reports
    no change, also when the first run was the one that initialized the
    snapshot: the text report is the fixed sentence, the structured one
    counts no change. *)
Theorem main_rerun_reports_nothing args1 args2 repo snapshot_file r1 :
  main args1 repo snapshot_file = Some r1 →
  raised r1 = None → arg_dry_run args1 = false →
  no_dump args1 → no_dump args2 →
  ∃ r2, main args2 repo (snapshot_after r1) = Some r2
    ∧ raised r2 = None
    ∧ last (stdout r2) = Some (report (arg_out args2) [])
    ∧ report Human [] = Line ([10024%N] ++ py " No oracle changes today!").
Proof.
  intros Hr1 Hok Hdry Hno1 Hno2.
  destruct (main_plain_run_saves _ _ _ _ Hr1 Hok Hdry Hno1) as (ds & Hds & ->).
  eexists. split; [by apply main_on_saved|].
  simpl. rewrite last_snoc, diff_states_same_dataset. done.
Qed.

(** X14 after the first run of the plain command line on [two_files]. *)
Lemma main_rerun_reports_nothing_two_files :
  ∃ r2, main plain_args two_files (snapshot_after two_files_first_run) = Some r2
    ∧ raised r2 = None
    ∧ last (stdout r2) = Some (report Human [])
    ∧ report Human [] = Line ([10024%N] ++ py " No oracle changes today!").
Proof.
  apply (main_rerun_reports_nothing plain_args plain_args two_files Missing
           two_files_first_run); try done.
Defined.

(** ** The runner's link to the commit *)

(** A string starts with each of its prefixes. *)
Lemma starts_with_app_refl sub r : starts_with sub (sub ++ r) = true.
Proof. induction sub as [|c sub IH]; simpl; [done|]. by rewrite bool_decide_eq_true_2. Qed.

(** Whether [s] starts with [sub] is settled by the first [length sub]
    characters of [s]. *)
Lemma starts_with_app_short sub a b :
  length sub ≤ length a → starts_with sub (a ++ b) = starts_with sub a.
Proof.
  revert a. induction sub as [|c sub IH]; intros [|d a] Hlen; simpl in *; try done; try lia.
  rewrite IH by lia. done.
Qed.

Lemma starts_with_app_l sub a b :
  starts_with sub a = true → starts_with sub (a ++ b) = true.
Proof.
  revert a. induction sub as [|c sub IH]; intros [|d a]; simpl; try done.
  rewrite !andb_true_iff. intros [-> ?]. eauto.
Qed.

(** A substring of a part is a substring of the whole. *)
Lemma contains_app_l sub a b :
  contains sub a = true → contains sub (a ++ b) = true.
Proof.
  induction a as [|d a IH]; simpl.
  - rewrite orb_false_r. destruct sub; [|done]. intros _. by destruct b.
  - rewrite !orb_true_iff. intros [H|H]; [left|right; auto].
    by apply (starts_with_app_l sub (d :: a) b).
Qed.

Lemma contains_app_r sub a b :
  contains sub b = true → contains sub (a ++ b) = true.
Proof.
  intros H. induction a as [|d a IH]; [done|].
  simpl. rewrite IH. apply orb_true_r.
Qed.

(** The two cases of [split_once]. *)
Lemma split_once_here sep s :
  starts_with sep s = true → split_once sep s = Some ([], drop (length sep) s).
Proof. intros H. destruct s; unfold split_once; fold split_once; by rewrite H. Qed.

Lemma split_once_later sep c s :
  starts_with sep (c :: s) = false →
  split_once sep (c :: s) = ab ← split_once sep s; Some (c :: ab.1, ab.2).
Proof. intros H. unfold split_once; fold split_once. by rewrite H. Qed.

(** [split] cuts at the first occurrence of the separator: where none
    starts inside [P], the cut is right after [P]. *)
Lemma split_once_first sep P rest :
  sep ≠ [] →
  contains sep (P ++ removelast sep) = false →
  split_once sep (P ++ sep ++ rest) = Some (P, rest).
Proof.
  intros Hsep.
  destruct (exists_last Hsep) as (init & l & ->).
  rewrite removelast_last.
  induction P as [|c P IH]; intros H.
  - simpl app. rewrite split_once_here by apply starts_with_app_refl.
    by rewrite drop_app_length.
  - apply orb_false_iff in H as [Hs Hc].
    specialize (IH Hc).
    rewrite <- app_comm_cons, split_once_later, IH; [done|].
    rewrite <- Hs.
    rewrite <- (app_assoc init), (app_assoc P), !app_comm_cons.
    apply starts_with_app_short.
    rewrite !length_app. simpl. lia.
Qed.

(** [rstrip] leaves a string that ends in a character that is not
    whitespace as it is. *)
Lemma lstrip_nonspace c s : is_space c = false → lstrip (c :: s) = c :: s.
Proof. intros H. simpl. by rewrite H. Qed.

Lemma rstrip_snoc s c : is_space c = false → rstrip (s ++ [c]) = s ++ [c].
Proof.
  intros H. unfold rstrip. rewrite reverse_snoc, lstrip_nonspace by done.
  by rewrite reverse_cons, reverse_involutive.
Qed.

Lemma ends_with_app sub a b :
  ends_with sub b = true → ends_with sub (a ++ b) = true.
Proof.
  unfold ends_with. intros H. rewrite reverse_app. by apply starts_with_app_l.
Qed.

Lemma truthy_ne {A} (l : list A) : l ≠ [] → truthy l = true.
Proof. by destruct l. Qed.

(** The loop body on a line of the shape of a header, whatever is in
    front of the file part. *)
Lemma link_line_header url last_commit P f sha :
  f ∈ ALLOWED_DATA_FILES →
  last_commit (DATA_SUBDIR ++ py "/" ++ f) = Some sha →
  sha ≠ [] →
  contains (py "Protocol ") P = true →
  contains (py " on ") (P ++ py " on") = false →
  let line := P ++ py " on <i>" ++ f ++ py "</i> has the following changes:" in
  link_line url last_commit line
  = removelast line ++ py " (<a href=" ++ [34%N] ++ url ++ py "/commit/" ++ sha
    ++ [34%N] ++ py ">Commit</a>):".
Proof.
  intros Hin Hsha Hne Hprot Hon line.
  assert (∃ rest, line = P ++ py " on " ++ rest
          ∧ contains (py "has the following changes:") rest = true
          ∧ strip (replace (py "</i>") [] (replace (py "<i>") []
              match split_once (py " has the following changes:") rest with
              | Some cd => cd.1
              | None => rest
              end)) = f
          ∧ ∃ body, rest = body ++ py "changes" ++ [58%N])
    as (rest & Hline & Hc & Hf & body & Hbody).
  { unfold ALLOWED_DATA_FILES in Hin.
    rewrite !elem_of_union, !elem_of_singleton in Hin.
    exists (py "<i>" ++ f ++ py "</i> has the following changes:").
    split; [done|].
    split; [by do 2 apply contains_app_r|].
    split; [by destruct Hin as [[[[->| ->]| ->]| ->]| ->]|].
    exists (py "<i>" ++ f ++ py "</i> has the following ").
    by rewrite <- !app_assoc. }
  assert (truthy f && bool_decide (f ∈ ALLOWED_DATA_FILES) = true) as Hok.
  { rewrite bool_decide_eq_true_2 by done.
    unfold ALLOWED_DATA_FILES in Hin.
    rewrite !elem_of_union, !elem_of_singleton in Hin.
    by destruct Hin as [[[[->| ->]| ->]| ->]| ->]. }
  assert (rstrip line = line) as Hr.
  { rewrite Hline, Hbody, !app_assoc. by apply rstrip_snoc. }
  assert (ends_with (py "changes:") line = true) as He.
  { rewrite Hline, Hbody, !app_assoc, <- !(app_assoc _ (py "changes")).
    by apply ends_with_app. }
  unfold link_line.
  rewrite Hr, He.
  assert (contains (py "has the following changes:") line = true) as ->.
  { rewrite Hline. by do 2 apply contains_app_r. }
  assert (contains (py "Protocol ") line = true) as ->.
  { by apply contains_app_l. }
  assert (split_once (py " on ") line = Some (P, rest)) as ->.
  { rewrite Hline. by apply split_once_first. }
  cbn [andb mbind option_bind fst snd].
  rewrite Hf, Hok, Hsha, truthy_ne by done.
  change (py " (<a href=") with (py " (" ++ py "<a href=").
  change (py ">Commit</a>):") with (py ">Commit</a>" ++ py "):").
  by rewrite <- !app_assoc.
Qed.

(** The first line [print_human] writes for a change record. *)
Lemma head_change_lines c :
  head (change_lines c)
  = Some (header_prefix c ++ py " on <i>" ++ escape (default [] (c_file c))
          ++ py "</i> has the following changes:").
Proof.
  unfold change_lines, header_prefix. simpl head.
  change (py "</code>) on <i>") with (py "</code>)" ++ py " on <i>").
  by rewrite <- !app_assoc.
Qed.

Lemma contains_Protocol_header_prefix c :
  contains (py "Protocol ") (header_prefix c) = true.
Proof.
  unfold header_prefix.
  apply (contains_app_r _ [_; _]), contains_app_l. by vm_compute.
Qed.

(** X15. The header line the tracker prints for a change record whose
    file is one of the allowed data files gets the link to the last commit
    of that file, put in brackets before the final colon, provided git
    knows a commit and the first [ on ] of the line is the one in front of
    the file: neither the escaped name nor the escaped id, as they stand in
    the line, bring an earlier one. *)
Theorem link_line_on_header url last_commit c f sha line :
  head (change_lines c) = Some line →
  c_file c = Some f →
  f ∈ ALLOWED_DATA_FILES →
  last_commit (DATA_SUBDIR ++ py "/" ++ f) = Some sha →
  sha ≠ [] →
  contains (py " on ") (header_prefix c ++ py " on") = false →
  link_line url last_commit line
  = removelast line ++ py " (<a href=" ++ [34%N] ++ url ++ py "/commit/" ++ sha
    ++ [34%N] ++ py ">Commit</a>):".
Proof.
  intros Hhd Hf Hin Hsha Hne Hon.
  rewrite head_change_lines, Hf in Hhd. simpl default in Hhd.
  assert (escape f = f) as Hesc.
  { unfold ALLOWED_DATA_FILES in Hin.
    rewrite !elem_of_union, !elem_of_singleton in Hin.
    by destruct Hin as [[[[->| ->]| ->]| ->]| ->]. }
  rewrite Hesc in Hhd. apply (inj Some) in Hhd. subst line.
  apply link_line_header; auto using contains_Protocol_header_prefix.
Qed.

(** X15 for a change record of [data1.ts]. *)
Lemma link_line_on_header_aave :
  ∃ line, head (change_lines change_aave) = Some line
    ∧ link_line (py "https://example.org/r") some_commit line
      = removelast line ++ py " (<a href=" ++ [34%N] ++ py "https://example.org/r"
        ++ py "/commit/" ++ py "abc123" ++ [34%N] ++ py ">Commit</a>):".
Proof.
  eexists. split; [reflexivity|].
  apply (link_line_on_header _ some_commit change_aave (py "data1.ts") (py "abc123"));
    [reflexivity|reflexivity| |reflexivity|done|by vm_compute].
  apply (bool_decide_unpack _). by vm_compute.
Defined.

(** The condition on the first [ on ] is needed: with it inside the name,
    the text cut out is not a file name and the header stays without a
    link, although git knows a commit. *)
Example link_line_name_with_on :
  ∀ line, head (change_lines change_on_solana) = Some line →
    link_line (py "u") some_commit line = line.
Proof. intros line [= <-]. by vm_compute. Qed.

(** ** The runner's post-processing of the whole report *)

(** [splitlines] on a character that ends no line. *)
Lemma splitlines_cons c s :
  is_linebreak c = false →
  splitlines (c :: s)
  = match splitlines s with
    | [] => [[c]]
    | l :: ls => (c :: l) :: ls
    end.
Proof. intros H. simpl. by rewrite H. Qed.

Lemma splitlines_line l rest :
  one_line l → splitlines (l ++ [10%N] ++ rest) = l :: splitlines rest.
Proof.
  induction 1 as [|c l Hc _ IH].
  - by destruct rest.
  - by rewrite <- app_comm_cons, splitlines_cons, IH.
Qed.

Lemma splitlines_one_line l : one_line l → l ≠ [] → splitlines l = [l].
Proof.
  induction 1 as [|c l Hc Hl IH]; [done|]. intros _.
  rewrite splitlines_cons by done.
  destruct l as [|d l]; [done|]. by rewrite IH.
Qed.

(** [splitlines] undoes the join with line feeds of lines that have no
    line end in them, the last of which is not empty. *)
Lemma splitlines_join ls :
  Forall one_line ls → last ls ≠ Some [] → splitlines (join [10%N] ls) = ls.
Proof.
  induction 1 as [|l ls Hl Hls IH]; [done|]. intros Hlast.
  destruct ls as [|l2 ls].
  - simpl. apply splitlines_one_line; [done|]. by intros ->.
  - change (join [10%N] (l :: l2 :: ls)) with (l ++ [10%N] ++ join [10%N] (l2 :: ls)).
    rewrite splitlines_line by done. f_equal. apply IH.
    by rewrite last_cons_cons in Hlast.
Qed.

(** What keeps a string on one line. *)
Lemma one_line_app l1 l2 : one_line l1 → one_line l2 → one_line (l1 ++ l2).
Proof. intros. by apply Forall_app. Qed.

Lemma one_line_py s :
  forallb (λ c, negb (is_linebreak c)) (py s) = true → one_line (py s).
Proof.
  intros H. apply Forall_forall. intros c Hc.
  rewrite forallb_forall in H. apply negb_true_iff, H. by apply list_elem_of_In.
Qed.

Lemma one_line_escape s : one_line s → one_line (escape s).
Proof.
  induction 1 as [|c s Hc _ IH]; [constructor|].
  unfold escape in *. rewrite bind_cons. apply one_line_app; [|done].
  unfold escape_char.
  repeat (case_match; [by apply one_line_py|]).
  by constructor.
Qed.

Lemma one_line_pretty_N_go x s :
  one_line (py s) → one_line (py (pretty_N_go x s)).
Proof.
  revert s. induction (N.lt_wf_0 x) as [x _ IH]. intros s Hs.
  destruct (decide (0 < x)%N) as [Hx|Hx].
  - rewrite pretty_N_go_step by done. apply IH.
    { by apply N.div_lt. }
    change (py (String ?c ?s)) with (Ascii.N_of_ascii c :: py s).
    constructor; [|done].
    unfold pretty_N_char. repeat case_match; by vm_compute.
  - assert (x = 0%N) as -> by lia. by rewrite pretty_N_go_0.
Qed.

Lemma one_line_pretty_nat (n : nat) : one_line (py (pretty n)).
Proof.
  unfold pretty, pretty_nat, pretty, pretty_N. case_decide.
  - by apply one_line_py.
  - apply one_line_pretty_N_go. constructor.
Qed.

Lemma one_line_str_or x d : one_line x → one_line d → one_line (str_or x d).
Proof. unfold str_or. by destruct (truthy x). Qed.

Lemma one_line_cons c s : is_linebreak c = false → one_line s → one_line (c :: s).
Proof. by constructor. Qed.

Ltac one_line :=
  repeat first
    [ assumption
    | apply Forall_nil_2
    | apply one_line_cons; [reflexivity|]
    | apply one_line_py; reflexivity
    | apply one_line_pretty_nat
    | apply one_line_escape
    | apply one_line_str_or
    | apply one_line_app ].

(** The lines of the report have no line end but those the fields bring. *)
Lemma one_line_change_lines c :
  change_one_line c → Forall one_line (change_lines c).
Proof.
  intros (Hid & Hname & Hfile & Hplus & Hminus & Htypes).
  unfold change_lines. cbv zeta.
  repeat apply Forall_app_2.
  - constructor; [|constructor]. one_line.
  - apply Forall_fmap. eapply Forall_impl; [exact Hplus|]. simpl. intros. one_line.
  - apply Forall_fmap. eapply Forall_impl; [exact Hminus|]. simpl. intros. one_line.
  - apply Forall_fmap. eapply Forall_impl; [exact Htypes|].
    simpl. intros t (? & ? & ?). one_line.
  - constructor; [|constructor]. one_line.
Qed.

Lemma one_line_human_lines changes :
  Forall change_one_line changes → Forall one_line (human_lines changes).
Proof.
  intros H. unfold human_lines. apply Forall_app_2.
  - apply Forall_forall. intros line Hline.
    apply list_elem_of_bind in Hline as (c & Hline & Hc).
    rewrite Forall_forall in H.
    pose proof (one_line_change_lines c (H c Hc)) as Hl.
    rewrite Forall_forall in Hl. auto.
  - constructor; [|constructor]. one_line.
Qed.

(** X16. On the text report of a change-set that is not empty and whose
    strings have no line end in them, [add_commit_link_to_output] works
    line by line on the very lines [print_human] joined: the same number
    of lines, in the same order, each one the loop body applied to the
    line written. *)
Theorem add_commit_link_to_output_print_human url last_commit changes :
  changes ≠ [] →
  Forall change_one_line changes →
  add_commit_link_to_output url last_commit (print_human changes)
  = join [10%N] (link_line url last_commit <$> human_lines changes).
Proof.
  intros Hne Hone. unfold add_commit_link_to_output, print_human.
  rewrite truthy_ne by done.
  rewrite splitlines_join; [done|by apply one_line_human_lines|].
  unfold human_lines. by rewrite last_snoc.
Qed.

(** X16 for the report of one change record. *)
Lemma add_commit_link_to_output_print_human_aave :
  add_commit_link_to_output (py "u") some_commit (print_human [change_aave])
  = join [10%N] (link_line (py "u") some_commit <$> human_lines [change_aave]).
Proof.
  apply add_commit_link_to_output_print_human; [done|].
  constructor; [|constructor].
  unfold change_one_line. simpl. repeat split; repeat constructor; one_line.
Defined.
